(** * Page Quality Analyzer: the resource-verification core of [server.js]

    A shallow embedding of the [/api/analyze] pipeline of [src/server.js]:
    the skippability test, URL resolution with first-seen de-duplication,
    the two-phase probe, the worker pool of [checkResources], the merge of
    probe records onto the resource list, the summary numbers and the
    recommendations; of the result table that the analyzer page
    ([src/unnamed/part_000]) builds from the response, with [escapeHtml]
    and [escapeAttr]; and of the SMS length functions of
    [src/public/app.js].

    - JavaScript objects are finite maps from property names to values,
      [Object.assign] is a right-biased union, and the two [Map]s of the
      handler ([seen], [checkedMap]) are finite maps keyed by values.
    - Numbers are integers (HTTP statuses, millisecond clock readings and
      their differences), strings are sequences of code units below U+0100;
      the text of an SMS is a list of arbitrary code units.
    - The platform services the handler calls are inputs of the model:
      [new URL] is a function parameter [resolveUrl], [Date.now] and the
      settlement of each [axios] request are read from a [world].
    - The eight [async] workers of [checkResources] run interleaved on one
      thread; they are a transition system whose steps are the stretches
      of code between two [await]s. *)

From Stdlib Require Import ZArith Ascii String.
From stdpp Require Import base option list gmap strings pretty fin_maps.

Open Scope Z_scope.
Open Scope string_scope.
Open Scope list_scope.

(** ** JavaScript values and objects *)

Module JS.

(** Response headers are carried around but never inspected. *)
Definition headers := list (string * string).

Inductive value :=
  | VUndef
  | VNull
  | VBool (b : bool)
  | VNum (n : Z)
  | VStr (s : string)
  | VHeaders (h : headers).

#[global] Instance value_eq_dec : EqDecision value.
Proof. solve_decision. Defined.

Definition value_enc (v : value) : unit + unit + bool + Z + string + headers :=
  match v with
  | VUndef => inl (inl (inl (inl (inl tt))))
  | VNull => inl (inl (inl (inl (inr tt))))
  | VBool b => inl (inl (inl (inr b)))
  | VNum n => inl (inl (inr n))
  | VStr s => inl (inr s)
  | VHeaders h => inr h
  end.

Definition value_dec (x : unit + unit + bool + Z + string + headers) : value :=
  match x with
  | inl (inl (inl (inl (inl _)))) => VUndef
  | inl (inl (inl (inl (inr _)))) => VNull
  | inl (inl (inl (inr b))) => VBool b
  | inl (inl (inr n)) => VNum n
  | inl (inr s) => VStr s
  | inr h => VHeaders h
  end.

#[global] Instance value_countable : Countable value.
Proof.
  refine (inj_countable' value_enc value_dec _).
  intros []; reflexivity.
Defined.

(** An object is its own-property table. *)
Abbreviation obj := (gmap string value).

(** [o.k]: a missing property reads as [undefined]. *)
Definition get (o : obj) (k : string) : value := default VUndef (o !! k).

(** [Object.assign({}, a, b)]: the properties of [a], then those of [b] on
    top (stdpp's union keeps the left operand on a clash). *)
Definition assign (a b : obj) : obj := b ∪ a.

(** ToBoolean.  Numbers here are integers, so the only falsy number is 0. *)
Definition truthy (v : value) : bool :=
  match v with
  | VUndef | VNull => false
  | VBool b => b
  | VNum n => negb (Z.eqb n 0)
  | VStr s => negb (String.eqb s "")
  | VHeaders _ => true
  end.

(** [a || b] *)
Definition js_or (a b : value) : value := if truthy a then a else b.

(** [v != null] *)
Definition not_nullish (v : value) : bool :=
  match v with VUndef | VNull => false | _ => true end.

(** [v === 'lit'] *)
Definition is_str (v : value) (lit : string) : bool :=
  match v with VStr s => String.eqb s lit | _ => false end.

(** [v >= k] and [v > k] for a numeric [v]. *)
Definition num_ge (v : value) (k : Z) : bool :=
  match v with VNum n => Z.leb k n | _ => false end.
Definition num_gt (v : value) (k : Z) : bool :=
  match v with VNum n => Z.ltb k n | _ => false end.

(** [new Map(entries)]: every entry is [set] in turn, so the last entry
    with a given key wins. *)
Definition Map_of {V} (entries : list (value * V)) : gmap value V :=
  foldl (fun m e => <[e.1 := e.2]> m) ∅ entries.

(** *** Strings: [trim], [toLowerCase], [startsWith]

    Strings are sequences of code units in the range U+0000..U+00FF. *)

(** WhiteSpace and LineTerminator code points below U+0100. *)
Definition is_space (c : ascii) : bool :=
  let n := nat_of_ascii c in
  ((9 <=? n) && (n <=? 13) || (n =? 32) || (n =? 160))%nat.

Fixpoint trimStart (s : string) : string :=
  match s with
  | String c s' => if is_space c then trimStart s' else s
  | EmptyString => EmptyString
  end.

Fixpoint trimEnd (s : string) : string :=
  match s with
  | String c s' =>
      match trimEnd s' with
      | EmptyString => if is_space c then EmptyString else String c EmptyString
      | t => String c t
      end
  | EmptyString => EmptyString
  end.

Definition trim (s : string) : string := trimEnd (trimStart s).

Definition lower_char (c : ascii) : ascii :=
  let n := nat_of_ascii c in
  if ((65 <=? n) && (n <=? 90)
      || (192 <=? n) && (n <=? 222) && negb (n =? 215))%nat
  then ascii_of_nat (n + 32) else c.

Fixpoint toLowerCase (s : string) : string :=
  match s with
  | String c s' => String (lower_char c) (toLowerCase s')
  | EmptyString => EmptyString
  end.

Definition startsWith (s p : string) : bool := String.prefix p s.

End JS.

Import JS.

(** ** [isSkippableHref] (server.js 15-25) *)

Definition isSkippableHref (href : string) : bool :=
  if negb (truthy (VStr href)) then true
  else
    let l := toLowerCase (trim href) in
    startsWith l "javascript:"
    || startsWith l "mailto:"
    || startsWith l "tel:"
    || String.eqb l "#"
    || String.eqb l "".

(** ** Object literals of the handler *)

(** [{ id, type, raw, resolved, skippable, duplicateOf }] (server.js 164-171) *)
Definition resource_obj (id type raw resolved skippable duplicateOf : value) : obj :=
  list_to_map
    [("id", id); ("type", type); ("raw", raw); ("resolved", resolved);
     ("skippable", skippable); ("duplicateOf", duplicateOf)].

(** The property names of a resource object. *)
Definition resource_keys : list string :=
  ["id"; "type"; "raw"; "resolved"; "skippable"; "duplicateOf"].

(** [{ status, note }] (server.js 187, 190, 197) *)
Definition note_obj (status note : string) : obj :=
  list_to_map [("status", VStr status); ("note", VStr note)].

(** [{ status: 'ok', httpStatus, timeMs, headers }] (server.js 33-38, 54-59) *)
Definition ok_obj (httpStatus timeMs : Z) (hd : headers) : obj :=
  list_to_map
    [("status", VStr "ok"); ("httpStatus", VNum httpStatus);
     ("timeMs", VNum timeMs); ("headers", VHeaders hd)].

(** [{ status: 'error', httpStatus: code, error, timeMs }] (server.js 65-70) *)
Definition error_obj (code error : value) (timeMs : Z) : obj :=
  list_to_map
    [("status", VStr "error"); ("httpStatus", code); ("error", error);
     ("timeMs", VNum timeMs)].

(** [{ status: 'error', error: String(e), timeMs: null }] (server.js 94) *)
Definition threw_obj (e : string) : obj :=
  list_to_map [("status", VStr "error"); ("error", VStr e); ("timeMs", VNull)].

(** ** Resolution and first-seen de-duplication (server.js 75-81, 156-172) *)

(** One entry of [rawResources]; the core reads only [type] and [raw]. *)
Record raw_resource := { type : string; raw : string }.

(** [null] or the [href] string. *)
Definition of_resolved (r : option string) : value :=
  match r with Some s => VStr s | None => VNull end.

(** The template literal [`${r.type}:${r.raw}:${idx}`]. *)
Definition fallback_key (r : raw_resource) (idx : nat) : string :=
  type r ++ ":" ++ raw r ++ ":" ++ pretty idx.

(** No code unit of [s] is a colon. *)
Fixpoint colon_free (s : string) : bool :=
  match s with
  | EmptyString => true
  | String c s' => negb (Ascii.eqb c ":") && colon_free s'
  end.

Section Analyze.

(** [resolveUrl base relative] is [new URL(relative, base).href], or [None]
    where the constructor throws and the function returns [null]. *)
Variable resolveUrl : string -> string -> option string.

(** [const resolved = resolveUrl(parsedBase.href, r.raw)] *)
Definition resolved_of (base : string) (r : raw_resource) : value :=
  of_resolved (resolveUrl base (raw r)).

(** [const key = resolved || `${r.type}:${r.raw}:${idx}`] *)
Definition key_of (base : string) (r : raw_resource) (idx : nat) : value :=
  js_or (resolved_of base r) (VStr (fallback_key r idx)).

(** The callback of [rawResources.map], with the [seen] map threaded
    through: it returns the resource object and the updated map. *)
Definition resolve_one (base : string) (seen : gmap value value)
    (r : raw_resource) (idx : nat) : obj * gmap value value :=
  let resolved := resolved_of base r in
  let skippable := isSkippableHref (raw r) in
  let key := key_of base r idx in
  let duplicateOf :=
    match seen !! resolved with Some first => first | None => VNull end in
  let seen' :=
    match seen !! resolved with Some _ => seen | None => <[resolved := key]> seen end in
  (resource_obj key (VStr (type r)) (VStr (raw r)) resolved (VBool skippable)
     duplicateOf,
   seen').

(** The first reference of [raws] whose resolution is [v], with its index. *)
Definition first_seen (base : string) (raws : list raw_resource) (v : value)
    : option (nat * raw_resource) :=
  list_find (fun r => resolved_of base r = v) raws.

Fixpoint resources_from (base : string) (seen : gmap value value) (idx : nat)
    (raws : list raw_resource) : list obj :=
  match raws with
  | [] => []
  | r :: rest =>
      let '(o, seen') := resolve_one base seen r idx in
      o :: resources_from base seen' (S idx) rest
  end.

Definition resources (base : string) (raws : list raw_resource) : list obj :=
  resources_from base ∅ 0 raws.

(** [r => r.resolved && !r.skippable] *)
Definition checkable (r : obj) : bool :=
  truthy (get r "resolved") && negb (truthy (get r "skippable")).

Definition toCheck (base : string) (raws : list raw_resource) : list obj :=
  List.filter checkable (resources base raws).

Definition MAX_CHECK : nat := 300.

Definition toCheckLimited (base : string) (raws : list raw_resource) : list obj :=
  take MAX_CHECK (toCheck base raws).

End Analyze.

(** ** The two-phase probe (server.js 27-73) *)

(** How an [axios] promise settles: fulfilled with the response, or
    rejected with an error that may carry a response. *)
Inductive axios_result :=
  | Fulfilled (status : Z) (hdrs : headers)
  | Rejected (response_status : option Z) (message : string) (shown : string).

Inductive method := HEAD | GET.

(** The outside world of one probe: the clock read by [Date.now] and the
    network answering each request in turn. *)
Record world := {
  clock : nat -> Z;
  reads : nat;
  wire : nat -> method -> value -> axios_result;
  sent : nat
}.

Definition M (A : Type) : Type := world -> A * world.

Definition ret {A} (a : A) : M A := fun w => (a, w).

Definition bind {A B} (m : M A) (k : A -> M B) : M B :=
  fun w => let '(a, w') := m w in k a w'.

Notation "'let*' x ':=' m 'in' k" := (bind m (fun x => k))
  (at level 10, x name, m at level 100, k at level 200).

Definition Date_now : M Z := fun w =>
  (clock w (reads w),
   {| clock := clock w; reads := S (reads w); wire := wire w; sent := sent w |}).

(** [await axios.head(url, ...)] / [await axios.get(url, ...)] *)
Definition axios_request (m : method) (url : value) : M axios_result := fun w =>
  (wire w (sent w) m url,
   {| clock := clock w; reads := reads w; wire := wire w; sent := S (sent w) |}).

(** [code] of the inner catch block. *)
Definition error_code (response_status : option Z) : value :=
  match response_status with
  | Some s => if truthy (VNum s) then VNum s else VNull
  | None => VNull
  end.

(** [(getErr && getErr.message) || String(getErr)] *)
Definition error_text (message shown : string) : value :=
  js_or (VStr message) (VStr shown).

(** The probe.  A request that times out or exceeds [maxRedirects] is a
    rejected promise; destroying the GET stream (server.js 50-52) leaves
    the returned record unchanged. *)
Definition fetchWithHeadThenGet (url : value) : M obj :=
  let* start := Date_now in
  let* headRes := axios_request HEAD url in
  match headRes with
  | Fulfilled st hd =>
      let* now := Date_now in
      ret (ok_obj st (now - start) hd)
  | Rejected _ _ _ =>
      let* start2 := Date_now in
      let* getRes := axios_request GET url in
      match getRes with
      | Fulfilled st hd =>
          let* now := Date_now in
          ret (ok_obj st (now - start2) hd)
      | Rejected resp msg shown =>
          let* now := Date_now in
          ret (error_obj (error_code resp) (error_text msg shown) (now - start2))
      end
  end.

(** How the [axios] library (a dependency of the server) settles a
    request that received a response: through [validateStatus].  The
    handler passes only [timeout] and [maxRedirects], so the library
    default applies: statuses 200..299 fulfil the promise, every other
    status rejects it with an error carrying the response. *)
Definition validateStatus (s : Z) : bool := (200 <=? s)%Z && (s <? 300)%Z.

Definition settle (s : Z) (hd : headers) : axios_result :=
  if validateStatus s then Fulfilled s hd
  else Rejected (Some s) ("Request failed with status code " ++ pretty s)
                ("AxiosError: Request failed with status code " ++ pretty s).

(** ** The worker pool (server.js 83-100) *)

Definition CONCURRENCY : nat := 8.

(** The object a worker merges onto its item: what [fetchWithHeadThenGet]
    returned in some world, or the record of the worker's own catch. *)
Inductive probe_data (url : value) : obj -> Prop :=
  | probe_returned (w : world) :
      probe_data url (fetchWithHeadThenGet url w).1
  | probe_threw (e : string) :
      probe_data url (threw_obj e).

(** Between two [await]s a worker runs alone, so it is only ever observed
    suspended on the probe of an item, or after it has left its loop. *)
Inductive worker := Awaiting (item : obj) | Finished.

Record pool := { queue : list obj; results : list obj; workers : list worker }.

(** The items whose probes are in flight. *)
Definition awaited (ws : list worker) : list obj :=
  omap (fun w => match w with Awaiting item => Some item | Finished => None end) ws.

(** What a worker pushes for an item and the data of its probe:
    [Object.assign({}, item, data)]. *)
Definition pushed (pr : obj * obj) : obj := assign pr.1 pr.2.

(** The head of the worker loop, up to the [await]: with a non-empty queue
    the worker shifts an item (an object, so [!item] is false) and starts
    its probe; with an empty queue it leaves the loop. *)
Definition enter (q : list obj) : worker * list obj :=
  match q with
  | [] => (Finished, [])
  | item :: q' => (Awaiting item, q')
  end.

(** [new Array(n).fill(null).map(async () => ...)]: the workers are started
    one after the other, each running up to its first [await]. *)
Fixpoint spawn (n : nat) (q : list obj) : list worker * list obj :=
  match n with
  | O => ([], q)
  | S n' =>
      let '(w, q1) := enter q in
      let '(ws, q2) := spawn n' q1 in
      (w :: ws, q2)
  end.

(** The pool when [checkResources] reaches [await Promise.all(workers)]. *)
Definition pool_init (items : list obj) : pool :=
  {| queue := (spawn CONCURRENCY items).2; results := [];
     workers := (spawn CONCURRENCY items).1 |}.

(** One turn of the event loop: the probe of worker [i] settles, the
    worker pushes its record and runs on to the next [await] or to the end
    of its loop. *)
Inductive step : pool -> pool -> Prop :=
  | step_resume i item data q rs ws :
      ws !! i = Some (Awaiting item) ->
      probe_data (get item "resolved") data ->
      step {| queue := q; results := rs; workers := ws |}
           {| queue := (enter q).2; results := rs ++ [pushed (item, data)];
              workers := <[i := (enter q).1]> ws |}.

Definition is_awaiting (w : worker) : bool :=
  match w with Awaiting _ => true | Finished => false end.

(** Number of probes in flight. *)
Definition in_flight (p : pool) : nat := length (List.filter is_awaiting (workers p)).

(** [Promise.all(workers)] has resolved. *)
Definition all_finished (p : pool) : Prop := Forall (fun w => w = Finished) (workers p).

(** [checkResources items] can return [checked]. *)
Definition checkResources (items checked : list obj) : Prop :=
  exists p, rtc step (pool_init items) p /\ all_finished p /\ results p = checked.

(** The order in which probes settle when the first worker's probes are
    quick and the first probes of the other seven are slow: the first
    worker goes through its item and the whole queue, then the others
    finish in turn.  For up to eight items this is the queue order. *)
Definition front_order (items : list obj) : list obj :=
  match items with
  | [] => []
  | item :: rest => item :: drop (CONCURRENCY - 1) rest ++ take (CONCURRENCY - 1) rest
  end.

(** The result of the run in which probes settle in [front_order] and the
    [i]-th probe to settle meets the world [w i]. *)
Definition probe_all (w : nat -> world) (items : list obj) : list obj :=
  imap (fun i item => pushed (item, (fetchWithHeadThenGet (get item "resolved") (w i)).1))
    (front_order items).

(** Probes a pool still has to complete. *)
Definition fuel (p : pool) : nat :=
  (length (queue p) + length (awaited (workers p)))%nat.

#[global] Instance worker_eq_dec : EqDecision worker.
Proof. solve_decision. Defined.

(** What holds of every pool reached in [n] steps from [pool_init items]. *)
Record pool_inv (items : list obj) (n : nat) (p : pool) : Prop := {
  inv_size : length (workers p) = CONCURRENCY;
  inv_cover : exists prs : list (obj * obj),
      results p = pushed <$> prs
      /\ Forall (fun pr => probe_data (get pr.1 "resolved") pr.2) prs
      /\ length prs = n
      /\ items ≡ₚ prs.*1 ++ awaited (workers p) ++ queue p;
  inv_drained : Finished ∈ workers p -> queue p = [];
  inv_fuel : (n + fuel p = length items)%nat
}.

(** ** Merge and summary (server.js 183-222) *)

(** [new Map(checked.map(c => [c.resolved, c]))] *)
Definition checkedMap (checked : list obj) : gmap value obj :=
  Map_of ((fun c => (get c "resolved", c)) <$> checked).

(** The callback of [resources.map] that builds [finalResources]; a
    [found] record is an object, hence truthy. *)
Definition finalize (cm : gmap value obj) (r : obj) : obj :=
  if negb (truthy (get r "resolved")) then
    assign r (note_obj "unresolved" "Could not resolve URL")
  else if truthy (get r "skippable") then
    assign r (note_obj "skipped" "Skippable (mailto/tel/javascript/#)")
  else
    match cm !! get r "resolved" with
    | Some found => assign r found
    | None =>
        assign r (note_obj "not_checked" "Not checked (limit reached or queued)")
    end.

Definition finalResources (rs checked : list obj) : list obj :=
  finalize (checkedMap checked) <$> rs.

(** [r.status === 'error' || (r.httpStatus && r.httpStatus >= 400)] *)
Definition is_broken (r : obj) : bool :=
  is_str (get r "status") "error"
  || truthy (get r "httpStatus") && num_ge (get r "httpStatus") 400.

(** [r.timeMs != null && r.timeMs > 2000] *)
Definition is_slow (r : obj) : bool :=
  not_nullish (get r "timeMs") && num_gt (get r "timeMs") 2000.

(** [r.timeMs != null && r.status === 'ok'] *)
Definition is_timed_ok (r : obj) : bool :=
  not_nullish (get r "timeMs") && is_str (get r "status") "ok".

(** The number held by a [timeMs] that passed the filter. *)
Definition to_num (v : value) : Z := match v with VNum n => n | _ => 0 end.

(** [Math.round(a / b)] for integers [a] and [b > 0]: the nearest integer,
    a tie going up. *)
Definition round_div (a b : Z) : Z := (2 * a + b) / (2 * b).

(** [avgResponse]: [null] without times, else the rounded mean. *)
Definition avgResponse (final : list obj) : option Z :=
  let times := (fun r => to_num (get r "timeMs")) <$> List.filter is_timed_ok final in
  match times with
  | [] => None
  | _ => Some (round_div (foldl Z.add 0 times) (Z.of_nat (length times)))
  end.

Record summary := {
  totalResources : nat;
  checked : nat;
  brokenCount : nat;
  slowCount : nat;
  averageResponseMs : option Z
}.

Record response := { summary_of : summary; resources_of : list obj }.

Section Respond.

Variable resolveUrl : string -> string -> option string.

(** The body of the handler after the page was fetched and parsed, given
    what [checkResources] returned. *)
Definition respond (base : string) (raws : list raw_resource) (checked : list obj)
    : response :=
  let final := finalResources (resources resolveUrl base raws) checked in
  {| summary_of :=
       {| totalResources := length final;
          checked := length (toCheckLimited resolveUrl base raws);
          brokenCount := length (List.filter is_broken final);
          slowCount := length (List.filter is_slow final);
          averageResponseMs := avgResponse final |};
     resources_of := final |}.

(** One analysis run: the pool returns some [checked], the handler answers. *)
Definition analysis (base : string) (raws : list raw_resource) (out : response) : Prop :=
  exists checked,
    checkResources (toCheckLimited resolveUrl base raws) checked
    /\ out = respond base raws checked.

End Respond.

(** ** The properties under study, as predicates on the output *)

(** Every later occurrence of a resolved URL points at the first one, and
    the first one points nowhere. *)
Definition first_occurrence_marks (final : list obj) : Prop :=
  forall i j oi oj,
    (i < j)%nat -> final !! i = Some oi -> final !! j = Some oj ->
    truthy (get oi "resolved") = true ->
    get oj "resolved" = get oi "resolved" ->
    (forall k ok, (k < i)%nat -> final !! k = Some ok ->
                  get ok "resolved" <> get oi "resolved") ->
    get oj "duplicateOf" = get oi "id" /\ get oi "duplicateOf" = VNull.

(** A set [duplicateOf] is not the own id and is the id of an earlier result. *)
Definition duplicateOf_points_back (final : list obj) : Prop :=
  forall j o,
    final !! j = Some o -> get o "duplicateOf" <> VNull ->
    get o "duplicateOf" <> get o "id"
    /\ exists i o', (i < j)%nat /\ final !! i = Some o'
                    /\ get o' "id" = get o "duplicateOf".

(** The ids are pairwise distinct. *)
Definition ids_distinct (final : list obj) : Prop :=
  forall i j oi oj,
    i <> j -> final !! i = Some oi -> final !! j = Some oj ->
    get oi "id" <> get oj "id".

(** Position [j] of the resource list lies beyond the cap: at least
    [MAX_CHECK] checkable resources come before it. *)
Definition beyond_cap (rs : list obj) (j : nat) : Prop :=
  (MAX_CHECK <= length (List.filter checkable (take j rs)))%nat.

(** Every checkable resource beyond the cap ends as [not_checked]. *)
Definition capped_not_checked (rs final : list obj) : Prop :=
  forall j r f,
    rs !! j = Some r -> final !! j = Some f ->
    checkable r = true -> beyond_cap rs j ->
    get f "status" = VStr "not_checked".

(** The spec's wording of skippability: after trimming and lower-casing,
    the reference is empty, exactly [#], or begins with one of the three
    schemes. *)
Definition skippable_spec (href : string) : Prop :=
  let l := toLowerCase (trim href) in
  l = "" \/ l = "#"
  \/ (exists rest, l = String.append "javascript:" rest)
  \/ (exists rest, l = String.append "mailto:" rest)
  \/ (exists rest, l = String.append "tel:" rest).

(** Every skippable reference ends as [skipped]. *)
Definition skippable_all_skipped (raws : list raw_resource) (final : list obj) : Prop :=
  forall j r f,
    raws !! j = Some r -> final !! j = Some f ->
    isSkippableHref (raw r) = true ->
    get f "status" = VStr "skipped".

(** The results with a successful probe, and their elapsed times. *)
Definition ok_items (final : list obj) : list obj :=
  List.filter (fun o => is_str (get o "status") "ok") final.

Definition elapsed (o : obj) : Z := to_num (get o "timeMs").

Definition total_elapsed (final : list obj) : Z :=
  foldr Z.add 0 (elapsed <$> ok_items final).

(** The average, when present, is the arithmetic mean of the elapsed
    times of the successfully probed results. *)
Definition average_is_mean (out : response) : Prop :=
  forall a,
    averageResponseMs (summary_of out) = Some a ->
    a * Z.of_nat (length (ok_items (resources_of out))) = total_elapsed (resources_of out).

(** A probe answered with the error status [s] is recorded as succeeded,
    carries [s], and counts as broken. *)
Definition error_status_recorded_ok (data : obj) (s : Z) : Prop :=
  get data "status" = VStr "ok" /\ get data "httpStatus" = VNum s
  /\ is_broken data = true.

(** [res] is the completed result of [item] with the probe data [data]:
    every property of [res] is the one of [data] where [data] has it and
    the one of [item] otherwise; the six properties of a resource object
    are those of [item]; and [res] records the outcome of the probe, either
    ['ok'] with an HTTP status and a time, or ['error'] with an error
    text. *)
Definition completed_record (item data res : obj) : Prop :=
  (forall key, get res key
               = match data !! key with Some v => v | None => get item key end)
  /\ (forall key, key ∈ resource_keys -> get res key = get item key)
  /\ ((get res "status" = VStr "ok"
       /\ exists s t, get res "httpStatus" = VNum s /\ get res "timeMs" = VNum t)
      \/ (get res "status" = VStr "error" /\ exists e, get res "error" = VStr e)).

(** ** Sample inputs *)

(** Values of [new URL(relative, base).href] for the references used in
    the examples below; [None] where the constructor throws (an opening
    bracket that never closes is not a host).  Other inputs are not used. *)
Definition sample_resolveUrl (base relative : string) : option string :=
  if String.eqb base "https://example.com/" then
    if String.eqb relative "/about" then Some "https://example.com/about"
    else if String.eqb relative "/a" then Some "https://example.com/a"
    else if String.eqb relative "/b" then Some "https://example.com/b"
    else if String.eqb relative "#" then Some "https://example.com/#"
    else if String.eqb relative "javascript:void(0)" then Some "javascript:void(0)"
    else if String.eqb relative "http://bad.invalid/x" then Some "http://bad.invalid/x"
    else if String.eqb relative "http://[" then None
    else if String.eqb relative "mailto://[" then None
    else None
  else None.

Definition sample_base : string := "https://example.com/".

Definition two_about : list raw_resource :=
  [ {| type := "anchor"; raw := "/about" |}; {| type := "anchor"; raw := "/about" |} ].

Definition two_hash : list raw_resource :=
  [ {| type := "anchor"; raw := "#" |}; {| type := "anchor"; raw := "#" |} ].

Definition many_a : list raw_resource :=
  replicate 301 {| type := "anchor"; raw := "/a" |}.

Definition a_and_b : list raw_resource :=
  [ {| type := "anchor"; raw := "/a" |}; {| type := "image"; raw := "/b" |} ].

Definition bad_mailto : list raw_resource :=
  [ {| type := "anchor"; raw := "mailto://[" |} ].

Definition two_broken : list raw_resource :=
  [ {| type := "anchor"; raw := "http://[" |}; {| type := "image"; raw := "http://[" |} ].

(** A world where every request answers 200 and the clock advances by
    [d] between two readings. *)
Definition steady_world (d : Z) : world :=
  {| clock := fun n => d * Z.of_nat n; reads := 0;
     wire := fun _ _ _ => Fulfilled 200 []; sent := 0 |}.

(** The outcome of the run on [raws] in which every probe is answered 200
    after [d] ms and the probes settle in [front_order]. *)
Definition steady_out (d : Z) (raws : list raw_resource) : response :=
  respond sample_resolveUrl sample_base raws
    (probe_all (fun _ => steady_world d)
       (toCheckLimited sample_resolveUrl sample_base raws)).

(** A world where no request gets a response (the host does not exist). *)
Definition dead_world : world :=
  {| clock := fun n => 5 * Z.of_nat n; reads := 0;
     wire := fun _ _ _ =>
       Rejected None "getaddrinfo ENOTFOUND bad.invalid"
                "Error: getaddrinfo ENOTFOUND bad.invalid";
     sent := 0 |}.

(** The mixed scenario of the spec: two anchors to [/about], a
    [javascript:] image, an anchor to a host that does not exist. *)
Definition mixed : list raw_resource :=
  [ {| type := "anchor"; raw := "/about" |}; {| type := "anchor"; raw := "/about" |};
    {| type := "image"; raw := "javascript:void(0)" |};
    {| type := "anchor"; raw := "http://bad.invalid/x" |} ].

(** The run on [mixed] in which both probes of [/about] are answered 200
    after 50 ms, the third probe fails, and results are pushed in queue
    order. *)
Definition mixed_out : response :=
  respond sample_resolveUrl sample_base mixed
    (probe_all (fun i => if (i <? 2)%nat then steady_world 50 else dead_world)
       (toCheckLimited sample_resolveUrl sample_base mixed)).

(** A world where the server answers every request with status [s]. *)
Definition status_world (s : Z) : world :=
  {| clock := fun n => 40 * Z.of_nat n; reads := 0;
     wire := fun _ _ _ => settle s []; sent := 0 |}.

(** A server that rejects HEAD with 405 and answers GET with 200; the
    HEAD attempt takes 30 ms, the GET attempt 50 ms. *)
Definition head_405_world : world :=
  {| clock := fun n => match n with O => 1000 | 1%nat => 1030 | _ => 1080 end;
     reads := 0;
     wire := fun _ m _ => match m with HEAD => settle 405 [] | GET => settle 200 [] end;
     sent := 0 |}.

(** Ten checkable references, more than the pool has workers. *)
Definition ten_links : list raw_resource :=
  [ {| type := "anchor"; raw := "/a" |}; {| type := "anchor"; raw := "/b" |};
    {| type := "anchor"; raw := "/about" |}; {| type := "image"; raw := "/a" |};
    {| type := "image"; raw := "/b" |}; {| type := "image"; raw := "/about" |};
    {| type := "script"; raw := "/a" |}; {| type := "script"; raw := "/b" |};
    {| type := "stylesheet"; raw := "/a" |};
    {| type := "anchor"; raw := "http://bad.invalid/x" |} ].

Definition ten_items : list obj :=
  toCheckLimited sample_resolveUrl sample_base ten_links.

(** The probes of [ten_items] as they settle in [front_order]: the third
    to settle is the probe of the host that does not exist and gets no
    response, the others are answered 200 after 50 ms. *)
Definition ten_worlds (i : nat) : world :=
  if (i =? 2)%nat then dead_world else steady_world 50.

(** The pool after the ten probes have settled in [front_order]. *)
Definition ten_done : pool :=
  {| queue := []; results := probe_all ten_worlds ten_items;
     workers := replicate CONCURRENCY Finished |}.

(** ** The rest of the summary (server.js 205-216, 238-243) *)

(** One entry of [duplicates]: [{ original, duplicate, type }]. *)
Record duplicate_entry := {
  original : obj;
  duplicate : value;
  duplicate_type : value
}.

(** The [forEach] that fills [duplicates], with [seenResolved] threaded
    through. *)
Fixpoint duplicates_from (seenResolved : gmap value obj) (final : list obj)
    : list duplicate_entry :=
  match final with
  | [] => []
  | r :: rest =>
      if truthy (get r "resolved") then
        match seenResolved !! get r "resolved" with
        | Some first =>
            {| original := first; duplicate := get r "resolved";
               duplicate_type := get r "type" |}
            :: duplicates_from seenResolved rest
        | None => duplicates_from (<[get r "resolved" := r]> seenResolved) rest
        end
      else duplicates_from seenResolved rest
  end.

Definition duplicates (final : list obj) : list duplicate_entry :=
  duplicates_from ∅ final.

(** [r => r.skippable || (r.raw && r.raw.trim() === '')] *)
Definition is_unnecessary (r : obj) : bool :=
  truthy (get r "skippable")
  || truthy (get r "raw")
     && match get r "raw" with VStr s => String.eqb (trim s) "" | _ => false end.

Definition duplicateCount (final : list obj) : nat := length (duplicates final).

Definition unnecessaryCount (final : list obj) : nat :=
  length (List.filter is_unnecessary final).

(** The four texts of [recommendations] (server.js 239-242). *)
Definition advice_broken : string :=
  "Fix or remove broken resources (HTTP 4xx/5xx or network errors).".
Definition advice_duplicates : string :=
  "Remove duplicate links/resources to reduce requests.".
Definition advice_slow : string :=
  "Investigate slow resources (>2000ms) and consider optimizing or lazy-loading them.".
Definition advice_unnecessary : string :=
  "Remove unnecessary placeholders (javascript:, #, mailto:, tel:) or convert them to accessible buttons if they perform actions.".

(** The [recommendations] array of the response: the spread of a
    one-element array for each count that is not zero. *)
Definition recommendations (final : list obj) : list string :=
  (if (length (List.filter is_broken final) =? 0)%nat then [] else [advice_broken])
  ++ (if (duplicateCount final =? 0)%nat then [] else [advice_duplicates])
  ++ (if (length (List.filter is_slow final) =? 0)%nat then [] else [advice_slow])
  ++ (if (unnecessaryCount final =? 0)%nat then [] else [advice_unnecessary]).

(** A world as [axios] with its default [validateStatus] presents it:
    every request either gets a response, settled by [settle], or fails
    without one. *)
Definition axios_world (w : world) : Prop :=
  forall n m url,
    (exists s hd, wire w n m url = settle s hd)
    \/ (exists msg shown, wire w n m url = Rejected None msg shown).

(** ** The result table of the analyzer page (unnamed/part_000 55-79) *)

(** [const http = r.httpStatus ? r.httpStatus : (r.status ? r.status : '')] *)
Definition http_cell (r : obj) : value :=
  if truthy (get r "httpStatus") then get r "httpStatus"
  else if truthy (get r "status") then get r "status" else VStr "".

(** [const note = r.note || r.error || (r.duplicateOf ? 'duplicate' : '')] *)
Definition note_cell (r : obj) : value :=
  js_or (js_or (get r "note") (get r "error"))
        (if truthy (get r "duplicateOf") then VStr "duplicate" else VStr "").

(** [const cls = ...]: the class of the table row. *)
Definition row_class (r : obj) : string :=
  if is_str (get r "status") "skipped" then "skipped"
  else if truthy (get r "httpStatus") && num_ge (get r "httpStatus") 400 then "bad"
  else if truthy (get r "timeMs") && num_gt (get r "timeMs") 2000 then "slow"
  else "".

(** The double quote. *)
Definition dquote : ascii := ascii_of_nat 34.

(** The replacement table of [escapeHtml]; other characters stay. *)
Definition escape_char (c : ascii) : string :=
  if Ascii.eqb c "&" then "&amp;"
  else if Ascii.eqb c "<" then "&lt;"
  else if Ascii.eqb c ">" then "&gt;"
  else if Ascii.eqb c dquote then "&quot;"
  else if Ascii.eqb c "'" then "&#39;"
  else String c EmptyString.

(** [s.replace(/[...]/g, f)] for a class of single characters: every
    character is replaced by its image. *)
Fixpoint replace_chars (f : ascii -> string) (s : string) : string :=
  match s with
  | EmptyString => EmptyString
  | String c s' => String.append (f c) (replace_chars f s')
  end.

Definition escapeHtml (s : string) : string :=
  if negb (truthy (VStr s)) then "" else replace_chars escape_char s.

(** [escapeAttr]: [escapeHtml(s)] with every double quote replaced by
    [&quot;]. *)
Definition escapeAttr (s : string) : string :=
  replace_chars (fun c => if Ascii.eqb c dquote then "&quot;" else String c EmptyString)
    (escapeHtml s).

(** The characters [escapeHtml] replaces. *)
Definition is_html_special (c : ascii) : bool :=
  Ascii.eqb c "&" || Ascii.eqb c "<" || Ascii.eqb c ">"
  || Ascii.eqb c dquote || Ascii.eqb c "'".

Fixpoint string_forall (p : ascii -> bool) (s : string) : bool :=
  match s with
  | EmptyString => true
  | String c s' => p c && string_forall p s'
  end.

(** ** SMS length (public/app.js 61-83) *)

(** The text of a message as its UTF-16 code units, so that [text.length]
    is the length of the list and [text.charCodeAt(i)] its element [i]. *)
Definition code_units : Type := list N.

Inductive sms_encoding := gsm | unicode.

(** The loop returns ['unicode'] at the first code unit above 127. *)
Fixpoint smsGsmEncoding (text : code_units) : sms_encoding :=
  match text with
  | [] => gsm
  | c :: rest => if (127 <? c)%N then unicode else smsGsmEncoding rest
  end.

Record sms_parts := {
  parts : Z;
  perPart : Z;
  encoding : sms_encoding;
  charsLeft : Z
}.

(** [Math.ceil(a / b)] for integers [a >= 0] and [b > 0]. *)
Definition ceil_div (a b : Z) : Z := (a + b - 1) / b.

Definition smsParts (text : code_units) : sms_parts :=
  let encoding := smsGsmEncoding text in
  let len := Z.of_nat (length text) in
  match encoding with
  | gsm =>
      if (len <=? 160)%Z then
        {| parts := 1; perPart := 160; encoding := encoding; charsLeft := 160 - len |}
      else
        let parts := ceil_div len 153 in
        {| parts := parts; perPart := 153; encoding := encoding;
           charsLeft := parts * 153 - len |}
  | unicode =>
      if (len <=? 70)%Z then
        {| parts := 1; perPart := 70; encoding := encoding; charsLeft := 70 - len |}
      else
        let parts := ceil_div len 67 in
        {| parts := parts; perPart := 67; encoding := encoding;
           charsLeft := parts * 67 - len |}
  end.

(** The single-part limit of an encoding. *)
Definition single_limit (e : sms_encoding) : Z :=
  match e with gsm => 160 | unicode => 70 end.

(** ** Predicates for the further properties *)

(** The promise of a request was fulfilled. *)
Definition is_fulfilled (r : axios_result) : bool :=
  match r with Fulfilled _ _ => true | Rejected _ _ _ => false end.

(** The characters that open or close markup or an attribute value. *)
Definition is_markup_char (c : ascii) : bool :=
  Ascii.eqb c "<" || Ascii.eqb c ">" || Ascii.eqb c dquote || Ascii.eqb c "'".

(** The rows of the result table that get the class [cls]. *)
Definition rows_of_class (cls : string) (final : list obj) : list obj :=
  List.filter (fun r => String.eqb (row_class r) cls) final.

(** * Properties *)

(** ** Objects *)

Lemma get_assign (a b : obj) (k : string) :
  get (assign a b) k = match b !! k with Some v => v | None => get a k end.
Proof.
  unfold get, assign. rewrite lookup_union.
  destruct (b !! k), (a !! k); reflexivity.
Qed.

Lemma get_assign_note (r : obj) (st nt k : string) :
  k <> "status" -> k <> "note" -> get (assign r (note_obj st nt)) k = get r k.
Proof.
  intros H1 H2. rewrite get_assign. unfold note_obj. simpl.
  rewrite !lookup_insert_ne by congruence. rewrite lookup_empty. reflexivity.
Qed.

Lemma get_note_status (r : obj) (st nt : string) :
  get (assign r (note_obj st nt)) "status" = VStr st.
Proof. rewrite get_assign. reflexivity. Qed.

Lemma get_resource_id (i t w v s d : value) :
  get (resource_obj i t w v s d) "id" = i.
Proof. reflexivity. Qed.

Lemma get_resource_resolved (i t w v s d : value) :
  get (resource_obj i t w v s d) "resolved" = v.
Proof. reflexivity. Qed.

Lemma get_resource_skippable (i t w v s d : value) :
  get (resource_obj i t w v s d) "skippable" = s.
Proof. reflexivity. Qed.

Lemma get_resource_duplicateOf (i t w v s d : value) :
  get (resource_obj i t w v s d) "duplicateOf" = d.
Proof. reflexivity. Qed.

Lemma resource_obj_lookup_other (i t w v s d : value) (k : string) :
  k ∉ resource_keys ->
  resource_obj i t w v s d !! k = None.
Proof.
  intros Hk. unfold resource_obj. apply not_elem_of_list_to_map_1.
  exact Hk.
Qed.

(** ** Strings and the fallback key *)

Lemma append_cons (x : ascii) (a b : string) :
  String.append (String x a) b = String x (String.append a b).
Proof. reflexivity. Qed.

Lemma append_nil (b : string) : String.append EmptyString b = b.
Proof. reflexivity. Qed.

Lemma append_assoc (a b c : string) :
  String.append (String.append a b) c = String.append a (String.append b c).
Proof.
  induction a as [|x a IH]; [reflexivity|].
  rewrite !append_cons. f_equal. exact IH.
Qed.

Lemma prefix_spec (p s : string) :
  String.prefix p s = true <-> exists rest, s = String.append p rest.
Proof.
  revert s. induction p as [|c p IH]; intros s.
  - split; [intros _; exists s; reflexivity | intros _; destruct s; reflexivity].
  - destruct s as [|c' s]; simpl.
    { split; [discriminate | intros [rest H]; rewrite append_cons in H; discriminate]. }
    destruct (ascii_dec c c') as [->|Hne].
    + rewrite IH. split; intros [rest H]; exists rest.
      * rewrite append_cons. congruence.
      * rewrite append_cons in H. congruence.
    + split; [discriminate | intros [rest H]; rewrite append_cons in H; congruence].
Qed.

Lemma colon_free_append (a b : string) :
  colon_free (String.append a b) = colon_free a && colon_free b.
Proof.
  induction a as [|c a IH]; [reflexivity|].
  rewrite append_cons. simpl. rewrite IH. apply andb_assoc.
Qed.

Lemma colon_free_pretty_N_go (x : N) (s : string) :
  colon_free s = true -> colon_free (pretty_N_go x s) = true.
Proof.
  revert s. induction (N.lt_wf_0 x) as [x _ IH]; intros s Hs.
  destruct (decide (0 < x)%N) as [Hx|Hx].
  - rewrite pretty_N_go_step by exact Hx. apply IH.
    + apply N.div_lt; [exact Hx | reflexivity].
    + simpl. rewrite Hs. unfold pretty_N_char.
      repeat case_match; reflexivity.
  - assert (x = 0%N) as -> by lia. rewrite pretty_N_go_0. exact Hs.
Qed.

Lemma colon_free_pretty_nat (n : nat) : colon_free (pretty n) = true.
Proof.
  unfold pretty, pretty_nat, pretty, pretty_N.
  case_decide; [reflexivity|]. apply colon_free_pretty_N_go. reflexivity.
Qed.

(** Two strings that end in a colon-free part after a colon agree on
    that part. *)
Lemma last_field_inj (x1 x2 d1 d2 : string) :
  colon_free d1 = true -> colon_free d2 = true ->
  String.append x1 (String ":" d1) = String.append x2 (String ":" d2) -> d1 = d2.
Proof.
  intros H1 H2. revert x2.
  induction x1 as [|c x1 IH]; intros [|c2 x2] H;
    rewrite ?append_cons, ?append_nil in H.
  - congruence.
  - injection H as <- ->. rewrite colon_free_append in H1. simpl in H1.
    rewrite andb_false_r in H1. discriminate.
  - injection H as -> <-. rewrite colon_free_append in H2. simpl in H2.
    rewrite andb_false_r in H2. discriminate.
  - injection H as _ H. exact (IH _ H).
Qed.

(** The fallback key determines the index it was built from. *)
Lemma fallback_key_inj (r r' : raw_resource) (i j : nat) :
  fallback_key r i = fallback_key r' j -> i = j.
Proof.
  unfold fallback_key. intros H.
  change (String.append (type r) (String.append ":" (String.append (raw r) (String ":" (pretty i))))
          = String.append (type r') (String.append ":" (String.append (raw r') (String ":" (pretty j)))))
    in H.
  rewrite <- !append_assoc in H.
  apply last_field_inj in H; try apply colon_free_pretty_nat.
  apply (inj pretty) in H. exact H.
Qed.

(** ** The resolution pass *)

Section ResolutionFacts.

Variable resolveUrl : string -> string -> option string.
Variable base : string.

Local Abbreviation res := (resolved_of resolveUrl base).
Local Abbreviation key := (key_of resolveUrl base).

Lemma resources_from_length seen idx raws :
  length (resources_from resolveUrl base seen idx raws) = length raws.
Proof.
  revert seen idx. induction raws as [|r rest IH]; intros seen idx; simpl.
  - reflexivity.
  - f_equal. apply IH.
Qed.

(** What the pass writes at position [j], started with any [seen] map and
    index offset. *)
Lemma resources_from_lookup seen idx raws j r :
  raws !! j = Some r ->
  resources_from resolveUrl base seen idx raws !! j =
    Some (resource_obj (key r (idx + j)) (VStr (type r)) (VStr (raw r))
            (res r) (VBool (isSkippableHref (raw r)))
            (match seen !! res r with
             | Some first => first
             | None =>
                 match first_seen resolveUrl base (take j raws) (res r) with
                 | Some (i, r') => key r' (idx + i)
                 | None => VNull
                 end
             end)).
Proof.
  revert seen idx j. induction raws as [|r0 rest IH]; intros seen idx j Hj.
  - discriminate.
  - destruct j as [|j]; simpl in Hj.
    + injection Hj as ->. simpl. rewrite Nat.add_0_r. reflexivity.
    + simpl. rewrite (IH _ _ _ Hj). do 2 f_equal.
      { f_equal. lia. }
      unfold first_seen. simpl.
      destruct (decide (res r0 = res r)) as [He|Hne].
      * rewrite He.
        destruct (seen !! res r) as [k|] eqn:Hs.
        -- rewrite Hs. reflexivity.
        -- rewrite lookup_insert_eq. rewrite Nat.add_0_r. reflexivity.
      * assert ((match seen !! res r0 with
                 | Some _ => seen
                 | None => <[res r0 := key r0 idx]> seen
                 end) !! res r = seen !! res r) as ->.
        { destruct (seen !! res r0); [reflexivity|].
          apply lookup_insert_ne. exact Hne. }
        destruct (seen !! res r); [reflexivity|].
        destruct (list_find _ (take j rest)) as [[i r']|]; simpl.
        -- f_equal. lia.
        -- reflexivity.
Qed.

Lemma resources_lookup raws j r :
  raws !! j = Some r ->
  resources resolveUrl base raws !! j =
    Some (resource_obj (key r j) (VStr (type r)) (VStr (raw r))
            (res r) (VBool (isSkippableHref (raw r)))
            (match first_seen resolveUrl base (take j raws) (res r) with
             | Some (i, r') => key r' i
             | None => VNull
             end)).
Proof.
  intros Hj. unfold resources. rewrite (resources_from_lookup _ _ _ _ _ Hj).
  rewrite lookup_empty. reflexivity.
Qed.

End ResolutionFacts.

Lemma final_lookup resolveUrl base raws checked j r :
  raws !! j = Some r ->
  finalResources (resources resolveUrl base raws) checked !! j
  = Some (finalize (checkedMap checked)
            (resource_obj (key_of resolveUrl base r j) (VStr (type r)) (VStr (raw r))
               (resolved_of resolveUrl base r) (VBool (isSkippableHref (raw r)))
               (match first_seen resolveUrl base (take j raws) (resolved_of resolveUrl base r) with
                | Some (i, r') => key_of resolveUrl base r' i
                | None => VNull
                end))).
Proof.
  intros Hr. unfold finalResources. rewrite list_lookup_fmap.
  rewrite (resources_lookup _ _ _ _ _ Hr). reflexivity.
Qed.

(** The first reference with a given resolution is what [first_seen]
    finds in any longer prefix. *)
Lemma first_seen_first resolveUrl base raws f j rf v :
  raws !! f = Some rf -> resolved_of resolveUrl base rf = v -> (f < j)%nat ->
  (forall i ri, (i < f)%nat -> raws !! i = Some ri -> resolved_of resolveUrl base ri <> v) ->
  first_seen resolveUrl base (take j raws) v = Some (f, rf).
Proof.
  intros Hf Hv Hlt Hfirst. unfold first_seen. apply list_find_Some.
  split; [|split].
  - rewrite lookup_take_lt by exact Hlt. exact Hf.
  - exact Hv.
  - intros i ri Hi Hif. apply (Hfirst i ri Hif).
    rewrite lookup_take_lt in Hi by lia. exact Hi.
Qed.

(** ** The worker pool *)

Lemma workers_split (ws : list worker) i w :
  ws !! i = Some w ->
  ws = take i ws ++ w :: drop (S i) ws
  /\ forall w', <[i := w']> ws = take i ws ++ w' :: drop (S i) ws.
Proof.
  intros Hi. split.
  - symmetry. apply take_drop_middle. exact Hi.
  - intros w'. apply insert_take_drop. eapply lookup_lt_Some. exact Hi.
Qed.

Lemma awaited_app ws1 ws2 : awaited (ws1 ++ ws2) = awaited ws1 ++ awaited ws2.
Proof. apply omap_app. Qed.

Lemma awaited_Awaiting (l : list obj) : awaited (Awaiting <$> l) = l.
Proof. induction l as [|x l IH]; [reflexivity|]. simpl. f_equal. exact IH. Qed.

Lemma awaited_Finished (k : nat) : awaited (replicate k Finished) = [].
Proof. induction k as [|k IH]; [reflexivity | exact IH]. Qed.

Lemma in_flight_awaited p : in_flight p = length (awaited (workers p)).
Proof.
  unfold in_flight. induction (workers p) as [|w ws IH]; [reflexivity|].
  destruct w; simpl; rewrite ?IH; reflexivity.
Qed.

Lemma awaited_length_le ws : (length (awaited ws) <= length ws)%nat.
Proof. induction ws as [|[] ws IH]; simpl; lia. Qed.

(** Replacing a suspended worker: its item leaves the items in flight and
    the item of the new worker, if it has one, joins them. *)
Lemma awaited_insert ws i item w' :
  ws !! i = Some (Awaiting item) ->
  item :: awaited (<[i := w']> ws) ≡ₚ awaited [w'] ++ awaited ws.
Proof.
  intros Hi. destruct (workers_split _ _ _ Hi) as [Hws Hins].
  rewrite Hws at 2. rewrite Hins.
  change (w' :: drop (S i) ws) with ([w'] ++ drop (S i) ws).
  rewrite !awaited_app. simpl. solve_Permutation.
Qed.

(** Starting [n] workers on a queue: the first [n] items are in flight,
    the workers left over have finished at once, the rest is queued. *)
Lemma spawn_spec (n : nat) (q : list obj) :
  spawn n q = ((Awaiting <$> take n q) ++ replicate (n - length q) Finished, drop n q).
Proof.
  revert q. induction n as [|n IH]; intros q; [reflexivity|].
  destruct q as [|item q]; simpl; rewrite IH.
  - rewrite take_nil, drop_nil. simpl. replace (n - 0)%nat with n by lia. reflexivity.
  - reflexivity.
Qed.

Lemma enter_spec (q : list obj) :
  awaited [(enter q).1] ++ (enter q).2 = q
  /\ ((enter q).1 = Finished -> q = [])
  /\ (q = [] -> (enter q).2 = []).
Proof. destruct q; repeat split; (reflexivity || discriminate). Qed.

Lemma pool_inv_init items : pool_inv items 0 (pool_init items).
Proof.
  unfold pool_init. rewrite spawn_spec. split; simpl.
  - rewrite length_app, length_fmap, length_take, length_replicate. lia.
  - exists []. repeat split; [constructor|]. simpl.
    rewrite awaited_app, awaited_Awaiting, awaited_Finished, app_nil_r, take_drop.
    reflexivity.
  - intros Hin. apply elem_of_app in Hin as [Hin|Hin].
    + apply list_elem_of_fmap in Hin as (x & Hx & _). discriminate.
    + apply elem_of_replicate in Hin as [_ Hk]. apply drop_ge. lia.
  - unfold fuel. simpl.
    rewrite awaited_app, awaited_Awaiting, awaited_Finished, app_nil_r.
    rewrite Nat.add_comm, <- length_app, take_drop. reflexivity.
Qed.

Lemma pool_inv_step items n p p' :
  pool_inv items n p -> step p p' -> pool_inv items (S n) p'.
Proof.
  intros [Hsz (prs & Hres & Hdata & Hlen & Hperm) Hdr Hfuel] Hstep.
  destruct Hstep as [i item data q rs ws Hi Hd]. simpl in *.
  pose proof (awaited_insert ws i item (enter q).1 Hi) as Haw.
  destruct (enter_spec q) as (Hq & Hfin & Hnil).
  split; simpl.
  - rewrite length_insert. exact Hsz.
  - exists (prs ++ [(item, data)]). repeat split.
    + rewrite fmap_app, Hres. reflexivity.
    + apply Forall_app. split; [exact Hdata|]. constructor; [exact Hd|constructor].
    + rewrite length_app. simpl. lia.
    + rewrite Hperm, fmap_app. simpl. rewrite <- Hq at 1.
      rewrite <- !app_assoc. apply Permutation_app_head. simpl.
      rewrite (app_assoc (awaited ws)).
      rewrite (Permutation_app_comm (awaited ws)), <- Haw. reflexivity.
  - intros Hin. apply Hnil.
    destruct (workers_split _ _ _ Hi) as [Hws Hins]. rewrite Hins in Hin.
    apply elem_of_app in Hin as [Hin|Hin].
    + apply Hdr. rewrite Hws. apply elem_of_app. left. exact Hin.
    + apply elem_of_cons in Hin as [Hin|Hin].
      * apply Hfin. symmetry. exact Hin.
      * apply Hdr. rewrite Hws. apply elem_of_app. right. right. exact Hin.
  - unfold fuel in *. simpl in *.
    apply Permutation_length in Haw. rewrite length_app in Haw. cbn [length] in Haw.
    apply (f_equal length) in Hq. rewrite length_app in Hq. lia.
Qed.

Lemma pool_inv_nsteps items n p :
  nsteps step n (pool_init items) p -> pool_inv items n p.
Proof.
  revert p. induction n as [|n IH]; intros p Hn.
  - inversion Hn; subst. apply pool_inv_init.
  - apply nsteps_inv_r in Hn as (p0 & Hn & Hs).
    eapply pool_inv_step; [apply IH; exact Hn | exact Hs].
Qed.

(** A pool with an unfinished worker can take a step: that worker resumes
    when its probe settles. *)
Lemma pool_progress (p : pool) : ~ all_finished p -> exists p', step p p'.
Proof.
  intros Hnot. destruct p as [q rs ws]. unfold all_finished in Hnot. simpl in Hnot.
  apply not_Forall_Exists in Hnot; [|intros w; apply _].
  apply Exists_exists in Hnot as (w & Hin & Hw). simpl in Hw.
  apply list_elem_of_lookup in Hin as [i Hi].
  destruct w as [item|]; [|congruence].
  eexists. apply (step_resume i item (threw_obj "") q rs ws Hi). apply probe_threw.
Qed.

Lemma step_fuel p p' : step p p' -> (fuel p = S (fuel p'))%nat.
Proof.
  intros Hs. unfold fuel.
  destruct Hs as [i item data q rs ws Hi Hd]. simpl.
  pose proof (awaited_insert ws i item (enter q).1 Hi) as Haw.
  apply Permutation_length in Haw. rewrite length_app in Haw. cbn [length] in Haw.
  destruct (enter_spec q) as (Hq & _ & _).
  apply (f_equal length) in Hq. rewrite length_app in Hq. lia.
Qed.

(** Every pool can be run to completion. *)
Lemma pool_completes (p : pool) : exists p', rtc step p p' /\ all_finished p'.
Proof.
  remember (fuel p) as k eqn:Hk. revert p Hk.
  induction k as [k IH] using lt_wf_ind. intros p Hk.
  destruct (decide (Forall (fun w => w = Finished) (workers p))) as [Hfin|Hnot].
  - exists p. split; [apply rtc_refl | exact Hfin].
  - destruct (pool_progress p Hnot) as [p1 Hs].
    pose proof (step_fuel _ _ Hs) as Hf.
    destruct (IH (fuel p1) ltac:(lia) p1 eq_refl) as (p' & Hrun & Hfin).
    exists p'. split; [eapply rtc_l; eassumption | exact Hfin].
Qed.

Lemma all_finished_awaited ws :
  Forall (fun w => w = Finished) ws -> awaited ws = [].
Proof.
  induction 1 as [|w ws Hw _ IH]; [reflexivity|]. subst w. exact IH.
Qed.

(** What [checkResources] returns: one pushed record per input item, in
    some order, each carrying the data of a probe of that item's URL. *)
Lemma checkResources_shape items checked :
  checkResources items checked ->
  exists prs : list (obj * obj),
    checked = pushed <$> prs
    /\ Forall (fun pr => probe_data (get pr.1 "resolved") pr.2) prs
    /\ prs.*1 ≡ₚ items.
Proof.
  intros (p & Hrun & Hfin & Hres).
  apply rtc_nsteps in Hrun as [n Hn].
  destruct (pool_inv_nsteps _ _ _ Hn) as [Hsz (prs & Hr & Hd & _ & Hperm) Hdr _].
  exists prs. repeat split; [congruence | exact Hd |].
  rewrite (all_finished_awaited _ Hfin) in Hperm.
  assert (queue p = []) as Hq.
  { apply Hdr. unfold all_finished, CONCURRENCY in *.
    destruct (workers p) as [|w ws]; [discriminate|].
    inversion Hfin; subst. left. }
  rewrite Hq, !app_nil_r in Hperm. symmetry. exact Hperm.
Qed.

(** [checkResources] always returns. *)
Lemma checkResources_total items : exists checked, checkResources items checked.
Proof.
  destruct (pool_completes (pool_init items)) as (p & Hrun & Hfin).
  exists (results p), p. repeat split; assumption.
Qed.

(** The first worker goes through its item and the whole queue while the
    other workers stay suspended. *)
Lemma front_worker_run item q rs ws datas :
  Forall2 (fun it d => probe_data (get it "resolved") d) (item :: q) datas ->
  rtc step {| queue := q; results := rs; workers := Awaiting item :: ws |}
           {| queue := []; results := rs ++ (pushed <$> zip (item :: q) datas);
              workers := Finished :: ws |}.
Proof.
  revert item rs datas. induction q as [|next q IH]; intros item rs datas Hall.
  - inversion Hall as [|? d ? ds Hd Hnil]; subst. inversion Hnil; subst.
    apply rtc_once. apply (step_resume 0 item d [] rs (Awaiting item :: ws) eq_refl Hd).
  - inversion Hall as [|? d ? ds Hd Hrest]; subst.
    eapply rtc_l.
    + apply (step_resume 0 item d (next :: q) rs (Awaiting item :: ws) eq_refl Hd).
    + simpl. specialize (IH next (rs ++ [pushed (item, d)]) ds Hrest).
      rewrite <- app_assoc in IH. exact IH.
Qed.

(** With an empty queue, suspended workers finish one after the other. *)
Lemma in_turn_run (k : nat) (l : list obj) (ws : list worker) rs datas :
  Forall2 (fun it d => probe_data (get it "resolved") d) l datas ->
  rtc step {| queue := []; results := rs;
              workers := replicate k Finished ++ (Awaiting <$> l) ++ ws |}
           {| queue := []; results := rs ++ (pushed <$> zip l datas);
              workers := replicate (k + length l) Finished ++ ws |}.
Proof.
  intros Hall. revert k rs.
  induction Hall as [|item d l datas Hd _ IH]; intros k rs.
  - simpl. rewrite app_nil_r, Nat.add_0_r. apply rtc_refl.
  - assert ((replicate k Finished ++ (Awaiting <$> item :: l) ++ ws) !! k
            = Some (Awaiting item)) as Hk.
    { rewrite lookup_app_r by (rewrite length_replicate; lia).
      rewrite length_replicate, Nat.sub_diag. reflexivity. }
    assert (<[k := Finished]> (replicate k Finished ++ (Awaiting <$> item :: l) ++ ws)
            = replicate (S k) Finished ++ (Awaiting <$> l) ++ ws) as Hins.
    { rewrite insert_app_r_alt by (rewrite length_replicate; lia).
      rewrite length_replicate, Nat.sub_diag.
      rewrite (replicate_S_end k), <- app_assoc. reflexivity. }
    apply (rtc_l _ _ {| queue := []; results := rs ++ [pushed (item, d)];
                        workers := replicate (S k) Finished ++ (Awaiting <$> l) ++ ws |}).
    + rewrite <- Hins. exact (step_resume k item d [] rs _ Hk Hd).
    + specialize (IH (S k) (rs ++ [pushed (item, d)])).
      rewrite <- app_assoc in IH.
      replace (k + length (item :: l))%nat with (S k + length l)%nat by (simpl; lia).
      exact IH.
Qed.

Lemma pool_init_cons item rest :
  pool_init (item :: rest)
  = {| queue := drop 7 rest; results := [];
       workers := Awaiting item :: (Awaiting <$> take 7 rest)
                    ++ replicate (7 - length rest) Finished |}.
Proof. unfold pool_init. rewrite spawn_spec. reflexivity. Qed.

(** The run in which probes settle in [front_order]. *)
Lemma front_order_run items datas :
  Forall2 (fun it d => probe_data (get it "resolved") d) (front_order items) datas ->
  checkResources items (pushed <$> zip (front_order items) datas).
Proof.
  intros Hall. destruct items as [|item rest].
  - inversion Hall; subst. exists (pool_init []).
    split; [apply rtc_refl|]. split; [|reflexivity].
    unfold all_finished. simpl. repeat constructor.
  - unfold front_order in *. change (CONCURRENCY - 1)%nat with 7%nat in *.
    set (q := drop 7 rest) in *. set (l := take 7 rest) in *.
    apply Forall2_cons_inv_l in Hall as (d & ds & Hd & Hds & ->).
    apply Forall2_app_inv_l in Hds as (d1 & d2 & H1 & H2 & ->).
    pose proof (Forall2_length _ _ _ H1) as Hlen1.
    set (tail := replicate (7 - length rest) Finished).
    exists {| queue := []; results := pushed <$> zip (item :: q ++ l) (d :: d1 ++ d2);
              workers := replicate (1 + length l) Finished ++ tail |}.
    split; [|split; [|reflexivity]].
    + rewrite pool_init_cons. fold q l tail.
      eapply rtc_trans.
      * apply (front_worker_run item q [] ((Awaiting <$> l) ++ tail) (d :: d1)).
        constructor; assumption.
      * pose proof (in_turn_run 1 l tail ([] ++ (pushed <$> zip (item :: q) (d :: d1))) d2 H2)
          as Hrun.
        assert (([] ++ (pushed <$> zip (item :: q) (d :: d1))) ++ (pushed <$> zip l d2)
                = pushed <$> zip (item :: q ++ l) (d :: d1 ++ d2)) as Heq.
        { rewrite app_nil_l, <- fmap_app. f_equal.
          change (zip (item :: q ++ l) (d :: d1 ++ d2))
            with (zip ((item :: q) ++ l) ((d :: d1) ++ d2)).
          symmetry. apply zip_with_app. simpl. lia. }
        rewrite Heq in Hrun. exact Hrun.
    + unfold all_finished. simpl.
      apply Forall_forall. intros w Hw.
      apply elem_of_cons in Hw as [->|Hw]; [reflexivity|].
      apply elem_of_app in Hw as [Hw|Hw];
        apply elem_of_replicate in Hw as [-> _]; reflexivity.
Qed.

(** ** The probe *)

Lemma fetch_head_ok url w st hd :
  wire w (sent w) HEAD url = Fulfilled st hd ->
  (fetchWithHeadThenGet url w).1
  = ok_obj st (clock w (S (reads w)) - clock w (reads w)) hd.
Proof.
  intros Hh. unfold fetchWithHeadThenGet, bind, Date_now, axios_request. simpl.
  rewrite Hh. reflexivity.
Qed.

Lemma fetch_get_ok url w resp msg shown st hd :
  wire w (sent w) HEAD url = Rejected resp msg shown ->
  wire w (S (sent w)) GET url = Fulfilled st hd ->
  (fetchWithHeadThenGet url w).1
  = ok_obj st (clock w (S (S (reads w))) - clock w (S (reads w))) hd.
Proof.
  intros Hh Hg. unfold fetchWithHeadThenGet, bind, Date_now, axios_request. simpl.
  rewrite Hh. simpl. rewrite Hg. reflexivity.
Qed.

Lemma fetch_get_error url w resp msg shown resp2 msg2 shown2 :
  wire w (sent w) HEAD url = Rejected resp msg shown ->
  wire w (S (sent w)) GET url = Rejected resp2 msg2 shown2 ->
  (fetchWithHeadThenGet url w).1
  = error_obj (error_code resp2) (error_text msg2 shown2)
      (clock w (S (S (reads w))) - clock w (S (reads w))).
Proof.
  intros Hh Hg. unfold fetchWithHeadThenGet, bind, Date_now, axios_request. simpl.
  rewrite Hh. simpl. rewrite Hg. reflexivity.
Qed.

(** The three shapes of probe data. *)
Lemma probe_data_shape url d :
  probe_data url d ->
  (exists st t hd, d = ok_obj st t hd)
  \/ (exists code err t, d = error_obj code err t)
  \/ (exists e, d = threw_obj e).
Proof.
  intros [w|e].
  - destruct (wire w (sent w) HEAD url) as [st hd|resp msg shown] eqn:Hh.
    + left. rewrite (fetch_head_ok _ _ _ _ Hh). eauto.
    + destruct (wire w (S (sent w)) GET url) as [st hd|resp2 msg2 shown2] eqn:Hg.
      * left. rewrite (fetch_get_ok _ _ _ _ _ _ _ Hh Hg). eauto.
      * right. left. rewrite (fetch_get_error _ _ _ _ _ _ _ _ Hh Hg). eauto.
  - right. right. eauto.
Qed.

(** Probe data never carries a property of the resource object. *)
Lemma probe_data_lookup_resource_key url d k :
  probe_data url d -> k ∈ resource_keys -> d !! k = None.
Proof.
  intros Hd Hk. unfold resource_keys in Hk.
  apply probe_data_shape in Hd as [(st & t & hd & ->)|[(c & e & t & ->)|(e & ->)]];
    repeat (apply elem_of_cons in Hk as [->|Hk]; [reflexivity|]);
    inversion Hk.
Qed.

(** Probe data has a status ['ok'] with a measured time, or ['error']. *)
Lemma probe_data_status url d :
  probe_data url d ->
  (get d "status" = VStr "ok" /\ exists t, get d "timeMs" = VNum t)
  \/ get d "status" = VStr "error".
Proof.
  intros Hd.
  apply probe_data_shape in Hd as [(st & t & hd & ->)|[(c & e & t & ->)|(e & ->)]].
  - left. split; [reflexivity | exists t; reflexivity].
  - right. reflexivity.
  - right. reflexivity.
Qed.

Lemma pushed_get_resource_key item d k :
  probe_data (get item "resolved") d -> k ∈ resource_keys ->
  get (pushed (item, d)) k = get item k.
Proof.
  intros Hd Hk. unfold pushed. rewrite get_assign. simpl.
  rewrite (probe_data_lookup_resource_key _ _ _ Hd Hk). reflexivity.
Qed.

Lemma pushed_get_status item d url :
  probe_data url d -> get (pushed (item, d)) "status" = get d "status"
                      /\ get (pushed (item, d)) "timeMs" = get d "timeMs".
Proof.
  intros Hd. unfold pushed. rewrite !get_assign. simpl.
  apply probe_data_shape in Hd as [(st & t & hd & ->)|[(c & e & t & ->)|(e & ->)]];
    split; reflexivity.
Qed.

Lemma imap_pushed (g : nat -> obj -> obj) (l : list obj) :
  imap (fun i item => pushed (item, g i item)) l = pushed <$> zip l (imap g l).
Proof.
  revert g. induction l as [|item l IH]; intros g; [reflexivity|].
  cbn. f_equal. apply (IH (g ∘ S)).
Qed.

Lemma probe_all_run w items : checkResources items (probe_all w items).
Proof.
  unfold probe_all.
  rewrite (imap_pushed (fun i item => (fetchWithHeadThenGet (get item "resolved") (w i)).1)).
  apply front_order_run.
  generalize (front_order items). intros l. revert w.
  induction l as [|item l IH]; intros w; constructor.
  - apply probe_returned.
  - apply (IH (w ∘ S)).
Qed.

Lemma lookup_pushed_data (item data : obj) (k : string) (v : value) :
  data !! k = Some v -> pushed (item, data) !! k = Some v.
Proof. intros H. unfold pushed, assign. simpl. apply lookup_union_Some_l. exact H. Qed.

Lemma settle_error (s : Z) (hd : headers) :
  400 <= s -> exists msg shown, settle s hd = Rejected (Some s) msg shown.
Proof.
  intros Hs. unfold settle, validateStatus.
  replace (s <? 300)%Z with false by (symmetry; apply Z.ltb_ge; lia).
  rewrite andb_false_r. eauto.
Qed.

(** ** [new Map(entries)] *)

Lemma Map_of_foldl_Some {V} (l : list (value * V)) (m : gmap value V) k x :
  foldl (fun m e => <[e.1 := e.2]> m) m l !! k = Some x ->
  (k, x) ∈ l \/ m !! k = Some x.
Proof.
  revert m. induction l as [|[k' x'] l IH]; intros m H; simpl in *.
  - right. exact H.
  - apply IH in H as [H|H].
    + left. right. exact H.
    + destruct (decide (k' = k)) as [->|Hne].
      * rewrite lookup_insert_eq in H. injection H as ->. left. left.
      * rewrite lookup_insert_ne in H by exact Hne. right. exact H.
Qed.

Lemma Map_of_foldl_None {V} (l : list (value * V)) (m : gmap value V) k :
  foldl (fun m e => <[e.1 := e.2]> m) m l !! k = None <->
  (k ∉ l.*1) /\ m !! k = None.
Proof.
  revert m. induction l as [|[k' x'] l IH]; intros m; simpl.
  - split; [intros H; split; [apply not_elem_of_nil | exact H] | tauto].
  - rewrite IH. rewrite not_elem_of_cons.
    destruct (decide (k' = k)) as [->|Hne].
    + rewrite lookup_insert_eq. split; [intros [_ H]; discriminate | tauto].
    + rewrite lookup_insert_ne by exact Hne. split; [|tauto].
      intros [H1 H2]. repeat split; [congruence | exact H1 | exact H2].
Qed.

Lemma Map_of_Some {V} (l : list (value * V)) k x :
  Map_of l !! k = Some x -> (k, x) ∈ l.
Proof.
  intros H. apply Map_of_foldl_Some in H as [H|H]; [exact H|].
  rewrite lookup_empty in H. discriminate.
Qed.

Lemma Map_of_None {V} (l : list (value * V)) k :
  Map_of l !! k = None <-> k ∉ l.*1.
Proof.
  unfold Map_of. rewrite Map_of_foldl_None. rewrite lookup_empty. tauto.
Qed.

(** ** The merge *)

Section MergeFacts.

Variable resolveUrl : string -> string -> option string.
Variable base : string.
Variable raws : list raw_resource.

Local Abbreviation res := (resolved_of resolveUrl base).
Local Abbreviation key := (key_of resolveUrl base).
Local Abbreviation rs := (resources resolveUrl base raws).
Local Abbreviation limited := (toCheckLimited resolveUrl base raws).

(** The duplicate marker the resolution pass writes at position [j]. *)
Local Abbreviation dup_at j r :=
  (match first_seen resolveUrl base (take j raws) (res r) with
   | Some (i, r') => key r' i
   | None => VNull
   end).

Lemma resources_elem j o :
  rs !! j = Some o ->
  exists r, raws !! j = Some r
    /\ o = resource_obj (key r j) (VStr (type r)) (VStr (raw r)) (res r)
             (VBool (isSkippableHref (raw r))) (dup_at j r).
Proof.
  intros Ho. pose proof (lookup_lt_Some _ _ _ Ho) as Hlt.
  unfold resources in Hlt. rewrite resources_from_length in Hlt.
  destruct (lookup_lt_is_Some_2 raws j Hlt) as [r Hr].
  exists r. split; [exact Hr|].
  rewrite (resources_lookup _ _ _ _ _ Hr) in Ho. injection Ho as <-. reflexivity.
Qed.

Lemma resources_length : length rs = length raws.
Proof. unfold resources. apply resources_from_length. Qed.

Lemma limited_elem item :
  item ∈ limited -> checkable item = true /\ exists j, rs !! j = Some item.
Proof.
  intros Hin. apply subseteq_take in Hin. apply list_elem_of_In in Hin.
  apply filter_In in Hin as [Hin Hc]. split; [exact Hc|].
  apply list_elem_of_In in Hin. apply list_elem_of_lookup. exact Hin.
Qed.

(** The key of a resolved reference is its URL. *)
Lemma key_resolved r j : truthy (res r) = true -> key r j = res r.
Proof. intros Ht. unfold key_of, js_or. rewrite Ht. reflexivity. Qed.

Lemma key_unresolved r j :
  truthy (res r) = false -> key r j = VStr (fallback_key r j).
Proof. intros Ht. unfold key_of, js_or. rewrite Ht. reflexivity. Qed.

(** A resource object is absorbed by any pushed record of a resource. *)
Lemma assign_absorbed (i t w v s d i' t' w' v' s' d' : value) data url :
  probe_data url data ->
  assign (resource_obj i t w v s d) (pushed (resource_obj i' t' w' v' s' d', data))
  = pushed (resource_obj i' t' w' v' s' d', data).
Proof.
  intros Hd. unfold assign, pushed, assign. simpl.
  apply map_eq. intros k. rewrite lookup_union.
  destruct ((data ∪ resource_obj i' t' w' v' s' d') !! k) as [x|] eqn:Hk.
  - destruct (resource_obj i t w v s d !! k); reflexivity.
  - apply lookup_union_None in Hk as [_ Hk].
    destruct (decide (k ∈ resource_keys)) as [Hin|Hout].
    + unfold resource_keys in Hin.
      repeat (apply elem_of_cons in Hin as [->|Hin]; [discriminate|]).
      inversion Hin.
    + rewrite (resource_obj_lookup_other _ _ _ _ _ _ _ Hout). reflexivity.
Qed.

Section WithRun.

Variable checked : list obj.
Hypothesis Hrun : checkResources limited checked.

(** A record found in [checkedMap] was pushed for an item of the limited
    list that has the looked-up URL. *)
Lemma found_shape v found :
  checkedMap checked !! v = Some found ->
  exists item data,
    found = pushed (item, data) /\ item ∈ limited
    /\ probe_data (get item "resolved") data /\ get item "resolved" = v.
Proof.
  intros Hf. destruct (checkResources_shape _ _ Hrun) as (prs & Hc & Hd & Hperm).
  apply Map_of_Some in Hf. apply list_elem_of_fmap in Hf as (c & Heq & Hin).
  injection Heq as -> ->. rewrite Hc in Hin.
  apply list_elem_of_fmap in Hin as ([item data] & -> & Hin).
  rewrite Forall_forall in Hd. pose proof (Hd _ Hin) as Hp. simpl in Hp.
  exists item, data. repeat split; [| exact Hp |].
  - rewrite <- Hperm. apply list_elem_of_fmap. exists (item, data). split; [reflexivity|exact Hin].
  - symmetry. apply pushed_get_resource_key; [exact Hp|]. unfold resource_keys. set_solver.
Qed.

(** [checkedMap] misses exactly the URLs of no item of the limited list. *)
Lemma found_none v :
  checkedMap checked !! v = None <->
  v ∉ (fun item => get item "resolved") <$> limited.
Proof.
  destruct (checkResources_shape _ _ Hrun) as (prs & Hc & Hd & Hperm).
  unfold checkedMap. rewrite Map_of_None.
  assert (((fun c => (get c "resolved", c)) <$> checked).*1
          = (fun item => get item "resolved") <$> prs.*1) as ->.
  { rewrite Hc. clear Hc Hperm. induction Hd as [|[item data] prs Hp _ IH]; [reflexivity|].
    simpl in *. f_equal; [|exact IH].
    apply pushed_get_resource_key; [exact Hp|]. unfold resource_keys. set_solver. }
  rewrite Hperm. reflexivity.
Qed.

(** The four ways a resource is finished. *)
Lemma finalize_cases j r :
  raws !! j = Some r ->
  let o := resource_obj (key r j) (VStr (type r)) (VStr (raw r)) (res r)
             (VBool (isSkippableHref (raw r))) (dup_at j r) in
  let f := finalize (checkedMap checked) o in
  (truthy (res r) = false /\ f = assign o (note_obj "unresolved" "Could not resolve URL"))
  \/ (truthy (res r) = true /\ isSkippableHref (raw r) = true
      /\ f = assign o (note_obj "skipped" "Skippable (mailto/tel/javascript/#)"))
  \/ (truthy (res r) = true /\ isSkippableHref (raw r) = false
      /\ (res r ∉ (fun item => get item "resolved") <$> limited)
      /\ f = assign o (note_obj "not_checked" "Not checked (limit reached or queued)"))
  \/ (truthy (res r) = true /\ isSkippableHref (raw r) = false
      /\ exists item data, item ∈ limited /\ get item "resolved" = res r
           /\ probe_data (res r) data /\ f = pushed (item, data)).
Proof.
  intros Hr o f. subst f. unfold finalize.
  assert (get o "resolved" = res r) as -> by reflexivity.
  assert (get o "skippable" = VBool (isSkippableHref (raw r))) as -> by reflexivity.
  destruct (truthy (res r)) eqn:Ht; simpl; [|left; split; reflexivity].
  right. destruct (isSkippableHref (raw r)) eqn:Hs; simpl; [left; repeat split; reflexivity|].
  right. destruct (checkedMap checked !! res r) as [found|] eqn:Hf.
  - right. repeat split. apply found_shape in Hf as (item & data & -> & Hin & Hp & Hv).
    exists item, data. repeat split; [exact Hin | exact Hv | congruence |].
    destruct (limited_elem _ Hin) as [_ [j' Hj']].
    apply resources_elem in Hj' as (r' & _ & ->).
    subst o. eapply assign_absorbed. exact Hp.
  - left. repeat split. apply found_none. exact Hf.
Qed.

End WithRun.

End MergeFacts.

(** ** Ids and duplicate markers in the output *)

Section OutputFacts.

Variable resolveUrl : string -> string -> option string.
Variable base : string.
Variable raws : list raw_resource.
Variable checked : list obj.
Hypothesis Hrun : checkResources (toCheckLimited resolveUrl base raws) checked.

Local Abbreviation res := (resolved_of resolveUrl base).
Local Abbreviation key := (key_of resolveUrl base).
Local Abbreviation final := (finalResources (resources resolveUrl base raws) checked).

Lemma limited_item_shape item :
  item ∈ toCheckLimited resolveUrl base raws ->
  exists j r d, raws !! j = Some r
    /\ item = resource_obj (key r j) (VStr (type r)) (VStr (raw r)) (res r)
                (VBool (isSkippableHref (raw r))) d
    /\ truthy (res r) = true /\ isSkippableHref (raw r) = false.
Proof.
  intros Hin. destruct (limited_elem _ _ _ _ Hin) as [Hc [j Hj]].
  apply resources_elem in Hj as (r & Hr & ->).
  exists j, r. eexists. split; [exact Hr|]. split; [reflexivity|].
  unfold checkable in Hc. rewrite get_resource_resolved, get_resource_skippable in Hc.
  apply andb_true_iff in Hc as [H1 H2]. split; [exact H1|].
  simpl in H2. apply negb_true_iff in H2. exact H2.
Qed.

(** The merge never changes [id], [resolved] or [skippable]. *)
Lemma final_base j r f :
  raws !! j = Some r -> final !! j = Some f ->
  get f "id" = key r j /\ get f "resolved" = res r
  /\ get f "skippable" = VBool (isSkippableHref (raw r)).
Proof.
  intros Hr Hf. rewrite (final_lookup _ _ _ _ _ _ Hr) in Hf. injection Hf as <-.
  destruct (finalize_cases resolveUrl base raws checked Hrun j r Hr)
    as [[_ ->]|[(_ & _ & ->)|[(_ & _ & _ & ->)|(Ht & Hs & item & data & Hin & Hv & Hp & ->)]]].
  1-3: rewrite !get_assign_note by discriminate; repeat split; reflexivity.
  rewrite <- Hv in Hp.
  rewrite !(pushed_get_resource_key _ _ _ Hp) by (unfold resource_keys; set_solver).
  destruct (limited_item_shape _ Hin) as (j' & r' & d & Hr' & -> & Ht' & Hs').
  rewrite get_resource_resolved in Hv.
  rewrite get_resource_id, get_resource_resolved, get_resource_skippable.
  rewrite (key_resolved _ _ _ _ Ht'), (key_resolved _ _ _ _ Ht), Hs, Hs', Hv.
  repeat split; reflexivity.
Qed.

(** A result either carries one of the three notes and the duplicate
    marker of the resolution pass, or it is a pushed probe record. *)
Lemma final_status j r f :
  raws !! j = Some r -> final !! j = Some f ->
  (get f "status" ∈ [VStr "unresolved"; VStr "skipped"; VStr "not_checked"]
   /\ get f "timeMs" = VUndef
   /\ get f "duplicateOf"
      = match first_seen resolveUrl base (take j raws) (res r) with
        | Some (i, r') => key r' i
        | None => VNull
        end)
  \/ ((get f "status" = VStr "ok" /\ exists t, get f "timeMs" = VNum t)
      \/ get f "status" = VStr "error").
Proof.
  intros Hr Hf. rewrite (final_lookup _ _ _ _ _ _ Hr) in Hf. injection Hf as <-.
  destruct (finalize_cases resolveUrl base raws checked Hrun j r Hr)
    as [[_ ->]|[(_ & _ & ->)|[(_ & _ & _ & ->)|(Ht & Hs & item & data & Hin & Hv & Hp & ->)]]].
  1-3: left; rewrite get_note_status, !get_assign_note by discriminate;
       split; [set_solver | split; reflexivity].
  right. destruct (pushed_get_status item data _ Hp) as [-> ->].
  exact (probe_data_status _ _ Hp).
Qed.

End OutputFacts.

Lemma steady_out_analysis d raws :
  analysis sample_resolveUrl sample_base raws (steady_out d raws).
Proof.
  eexists. split; [apply probe_all_run | reflexivity].
Qed.

(** * The claims *)

(** ** C1: the first-occurrence markers *)

(** The resolution pass itself marks duplicates as C1 says, for every
    input: in [resources], each later occurrence of a resolution points at
    the id of the first, and the first points nowhere. *)
Lemma resources_first_occurrence_marks
    (resolveUrl : string -> string -> option string) (base : string)
    (raws : list raw_resource) :
  first_occurrence_marks (resources resolveUrl base raws).
Proof.
  intros i j oi oj Hlt Hi Hj _ Heq Hfirst.
  apply resources_elem in Hi as Hi'. destruct Hi' as (ri & Hri & ->).
  apply resources_elem in Hj as Hj'. destruct Hj' as (rj & Hrj & ->).
  rewrite !get_resource_resolved in Heq.
  rewrite !get_resource_duplicateOf, get_resource_id.
  assert (forall k rk, (k < i)%nat -> raws !! k = Some rk ->
            resolved_of resolveUrl base rk <> resolved_of resolveUrl base ri) as Hfirst'.
  { intros k rk Hk Hrk.
    pose proof (resources_lookup resolveUrl base raws k rk Hrk) as Hok.
    specialize (Hfirst k _ Hk Hok).
    rewrite !get_resource_resolved in Hfirst. exact Hfirst. }
  split.
  - rewrite Heq.
    rewrite (first_seen_first resolveUrl base raws i j ri _ Hri eq_refl Hlt Hfirst').
    reflexivity.
  - assert (first_seen resolveUrl base (take i raws) (resolved_of resolveUrl base ri) = None)
      as ->; [|reflexivity].
    apply list_find_None. apply Forall_forall. intros rk Hin.
    apply list_elem_of_lookup in Hin as [k Hk].
    apply lookup_take_Some in Hk as [Hk Hki]. exact (Hfirst' k rk Hki Hk).
Qed.

(** The merge replaces a probed resource by the record found for its URL,
    whatever reference that record was pushed for. *)
Lemma finalize_found
    (resolveUrl : string -> string -> option string) (base : string)
    (raws : list raw_resource) (checked : list obj) (j : nat) (r : raw_resource)
    (f found : obj) :
  checkResources (toCheckLimited resolveUrl base raws) checked ->
  raws !! j = Some r ->
  finalResources (resources resolveUrl base raws) checked !! j = Some f ->
  truthy (resolved_of resolveUrl base r) = true -> isSkippableHref (raw r) = false ->
  checkedMap checked !! resolved_of resolveUrl base r = Some found ->
  f = found.
Proof.
  intros Hrun Hr Hf Ht Hs Hfound.
  rewrite (final_lookup _ _ _ _ _ _ Hr) in Hf. injection Hf as <-.
  unfold finalize. rewrite get_resource_resolved, get_resource_skippable, Ht, Hs. simpl.
  rewrite Hfound.
  destruct (found_shape _ _ _ _ Hrun _ _ Hfound) as (item & data & -> & Hin & Hp & _).
  destruct (limited_item_shape _ _ _ _ Hin) as (j' & r' & d & _ & -> & _).
  eapply assign_absorbed. exact Hp.
Qed.

(** C1 (the code at the failing input).  For the two anchors to [/about],
    in every run the output holds one and the same record at both
    positions, so the markers of the resolution pass are lost: either the
    first occurrence is marked as a duplicate or the second is not. *)
Theorem C1_merge_overwrites_marks (out : response) :
  analysis sample_resolveUrl sample_base two_about out ->
  (exists o, resources_of out = [o; o]
             /\ get o "resolved" = VStr "https://example.com/about")
  /\ ~ first_occurrence_marks (resources_of out).
Proof.
  intros (checked & Hrun & ->). unfold respond. cbn [resources_of].
  pose (r := {| type := "anchor"; raw := "/about" |}).
  pose proof (final_lookup sample_resolveUrl sample_base two_about checked 0 r eq_refl) as E0.
  pose proof (final_lookup sample_resolveUrl sample_base two_about checked 1 r eq_refl) as E1.
  destruct (checkedMap checked !! resolved_of sample_resolveUrl sample_base r)
    as [found|] eqn:Hfound.
  2:{ exfalso. apply (found_none _ _ _ _ Hrun) in Hfound. apply Hfound.
      vm_compute. left. }
  pose proof (finalize_found _ _ _ _ 0%nat r _ _ Hrun eq_refl E0 eq_refl eq_refl Hfound) as F0.
  pose proof (finalize_found _ _ _ _ 1%nat r _ _ Hrun eq_refl E1 eq_refl eq_refl Hfound) as F1.
  rewrite F0 in E0. rewrite F1 in E1.
  destruct (final_base _ _ _ _ Hrun _ _ _ (eq_refl : two_about !! 0%nat = Some r) E0)
    as (Hid & Hres & _).
  assert (finalResources (resources sample_resolveUrl sample_base two_about) checked
          = [found; found]) as Hall.
  { apply list_eq. intros [|[|k]]; [exact E0 | exact E1 |].
    apply lookup_ge_None. unfold finalResources.
    rewrite length_fmap, resources_length. simpl. lia. }
  rewrite Hall. split.
  - exists found. split; [reflexivity | exact Hres].
  - intros Hmarks.
    destruct (Hmarks 0%nat 1%nat found found) as [H1 H2];
      [lia | reflexivity | reflexivity | rewrite Hres; reflexivity | reflexivity
       | intros k ok Hk; lia |].
    rewrite H2, Hid in H1. discriminate.
Qed.

Lemma C1_witness :
  (exists o, resources_of (steady_out 50 two_about) = [o; o]
             /\ get o "resolved" = VStr "https://example.com/about")
  /\ ~ first_occurrence_marks (resources_of (steady_out 50 two_about)).
Proof.
  apply (C1_merge_overwrites_marks (steady_out 50 two_about)).
  apply steady_out_analysis.
Defined.

(** ** C2: where a duplicate marker points *)

(** C2 (amended).  For every result of the output list that carries no
    probe record (status [unresolved], [skipped] or [not_checked]), a set
    [duplicateOf] is the id of a result strictly earlier in discovery
    order that has the same resolution; it equals the result's own id
    exactly when the result is resolved, so only for unresolved results
    does it differ from the own id. *)
Theorem C2_duplicateOf_points_back
    (resolveUrl : string -> string -> option string) (base : string)
    (raws : list raw_resource) (out : response) (j : nat) (o : obj) :
  analysis resolveUrl base raws out ->
  resources_of out !! j = Some o ->
  get o "status" ∈ [VStr "unresolved"; VStr "skipped"; VStr "not_checked"] ->
  get o "duplicateOf" <> VNull ->
  (exists i o', (i < j)%nat /\ resources_of out !! i = Some o'
                /\ get o' "id" = get o "duplicateOf"
                /\ get o' "resolved" = get o "resolved")
  /\ (get o "duplicateOf" = get o "id" <-> truthy (get o "resolved") = true).
Proof.
  intros (checked & Hrun & ->) Hj Hst Hset. simpl in *.
  destruct (lookup_lt_is_Some_2 raws j) as [r Hr].
  { apply lookup_lt_Some in Hj. unfold finalResources in Hj.
    rewrite length_fmap, resources_length in Hj. exact Hj. }
  destruct (final_base _ _ _ _ Hrun _ _ _ Hr Hj) as (Hid & Hres & _).
  destruct (final_status _ _ _ _ Hrun _ _ _ Hr Hj) as [(_ & _ & Hdup)|Hprobe].
  2:{ exfalso. destruct Hprobe as [[Hs _]|Hs]; rewrite Hs in Hst;
      repeat (apply elem_of_cons in Hst as [Hst|Hst]; [discriminate|]);
      inversion Hst. }
  rewrite Hdup in *. clear Hdup.
  destruct (first_seen resolveUrl base (take j raws) (resolved_of resolveUrl base r))
    as [[i r']|] eqn:Hfs; [|contradiction].
  apply list_find_Some in Hfs as (Hi & Heq & _).
  apply lookup_take_Some in Hi as [Hi Hlt].
  pose proof (final_lookup resolveUrl base raws checked i r' Hi) as Hfi.
  destruct (final_base _ _ _ _ Hrun _ _ _ Hi Hfi) as (Hid' & Hres' & _).
  split.
  - eexists i, _. split; [exact Hlt|]. split; [exact Hfi|].
    rewrite Hid', Hres', Hres, Heq. split; reflexivity.
  - rewrite Hid, Hres. split.
    + intros Hk. destruct (truthy (resolved_of resolveUrl base r)) eqn:Ht; [reflexivity|].
      exfalso. rewrite (key_unresolved _ _ _ _ Ht) in Hk.
      rewrite <- Heq in Ht. rewrite (key_unresolved _ _ _ _ Ht) in Hk.
      injection Hk as Hk. apply fallback_key_inj in Hk. lia.
    + intros Ht. rewrite (key_resolved _ _ _ _ Ht).
      rewrite <- Heq in Ht. rewrite (key_resolved _ _ _ _ Ht). exact Heq.
Qed.

Lemma C2_witness :
  let out := steady_out 50 two_hash in
  let o := resources_of out !!! 1%nat in
  (exists i o', (i < 1)%nat /\ resources_of out !! i = Some o'
                /\ get o' "id" = get o "duplicateOf"
                /\ get o' "resolved" = get o "resolved")
  /\ (get o "duplicateOf" = get o "id" <-> truthy (get o "resolved") = true).
Proof.
  intros out o.
  apply (C2_duplicateOf_points_back sample_resolveUrl sample_base two_hash out 1).
  - apply steady_out_analysis.
  - apply list_lookup_lookup_total_lt. vm_compute. lia.
  - vm_compute. set_solver.
  - vm_compute. discriminate.
Defined.

(** C2 as stated fails: the second [#] anchor is marked as a duplicate of
    its own id, the URL both anchors resolve to. *)
Lemma C2_counterexample :
  ~ (forall out, analysis sample_resolveUrl sample_base two_hash out ->
                 duplicateOf_points_back (resources_of out)).
Proof.
  intros H. specialize (H _ (steady_out_analysis 50 two_hash)).
  destruct (H 1%nat (resources_of (steady_out 50 two_hash) !!! 1%nat)) as [Hne _].
  - apply list_lookup_lookup_total_lt. vm_compute. lia.
  - vm_compute. discriminate.
  - apply Hne. vm_compute. reflexivity.
Qed.

(** ** C3: ids *)

(** C3 (amended).  In the output of a run, two results whose URLs resolved
    have the same id exactly when they have the same resolved URL, and two
    different results whose URLs did not resolve have different ids. *)
Theorem C3_ids_follow_resolution
    (resolveUrl : string -> string -> option string) (base : string)
    (raws : list raw_resource) (out : response) (i j : nat) (oi oj : obj) :
  analysis resolveUrl base raws out ->
  resources_of out !! i = Some oi -> resources_of out !! j = Some oj ->
  (truthy (get oi "resolved") = true -> truthy (get oj "resolved") = true ->
   (get oi "id" = get oj "id" <-> get oi "resolved" = get oj "resolved"))
  /\ (truthy (get oi "resolved") = false -> truthy (get oj "resolved") = false ->
      i <> j -> get oi "id" <> get oj "id").
Proof.
  intros (checked & Hrun & ->) Hi Hj. simpl in Hi, Hj.
  destruct (lookup_lt_is_Some_2 raws i) as [ri Hri].
  { apply lookup_lt_Some in Hi. unfold finalResources in Hi.
    rewrite length_fmap, resources_length in Hi. exact Hi. }
  destruct (lookup_lt_is_Some_2 raws j) as [rj Hrj].
  { apply lookup_lt_Some in Hj. unfold finalResources in Hj.
    rewrite length_fmap, resources_length in Hj. exact Hj. }
  destruct (final_base _ _ _ _ Hrun _ _ _ Hri Hi) as (-> & -> & _).
  destruct (final_base _ _ _ _ Hrun _ _ _ Hrj Hj) as (-> & -> & _).
  split.
  - intros Hti Htj. rewrite (key_resolved _ _ _ _ Hti), (key_resolved _ _ _ _ Htj).
    reflexivity.
  - intros Hti Htj Hne. rewrite (key_unresolved _ _ _ _ Hti), (key_unresolved _ _ _ _ Htj).
    intros [= H]. apply fallback_key_inj in H. contradiction.
Qed.

Lemma C3_witness :
  let out := steady_out 50 two_about in
  let oi := resources_of out !!! 0%nat in
  let oj := resources_of out !!! 1%nat in
  (truthy (get oi "resolved") = true -> truthy (get oj "resolved") = true ->
   (get oi "id" = get oj "id" <-> get oi "resolved" = get oj "resolved"))
  /\ (truthy (get oi "resolved") = false -> truthy (get oj "resolved") = false ->
      0%nat <> 1%nat -> get oi "id" <> get oj "id").
Proof.
  intros out oi oj.
  apply (C3_ids_follow_resolution sample_resolveUrl sample_base two_about out 0 1).
  - apply steady_out_analysis.
  - apply list_lookup_lookup_total_lt. vm_compute. lia.
  - apply list_lookup_lookup_total_lt. vm_compute. lia.
Defined.

(** C3 as stated fails: the two references to [/about] get the same id,
    their resolved URL. *)
Lemma C3_counterexample :
  ~ (forall out, analysis sample_resolveUrl sample_base two_about out ->
                 ids_distinct (resources_of out)).
Proof.
  intros H.
  destruct (steady_out_analysis 50 two_about) as (checked & Hrun & Hout).
  specialize (H _ (steady_out_analysis 50 two_about)). rewrite Hout in H. simpl in H.
  pose (r := {| type := "anchor"; raw := "/about" |}).
  destruct (final_lookup sample_resolveUrl sample_base two_about checked 0 r eq_refl
            , final_lookup sample_resolveUrl sample_base two_about checked 1 r eq_refl)
    as [E0 E1].
  apply (H 0%nat 1%nat _ _ ltac:(lia) E0 E1).
  destruct (final_base _ _ _ _ Hrun _ _ _ (eq_refl : two_about !! 0%nat = Some r) E0) as (-> & _).
  destruct (final_base _ _ _ _ Hrun _ _ _ (eq_refl : two_about !! 1%nat = Some r) E1) as (-> & _).
  reflexivity.
Qed.

(** ** C4: the cap on probed resources *)

(** C4 (amended).  When more than [MAX_CHECK] (300) resources are
    checkable, the pool probes exactly the first 300 of them, once each.
    A checkable resource whose resolved URL is the URL of none of those
    300 ends as [not_checked]; one whose URL was probed -- also one beyond
    the cap -- ends as a pushed probe record for that URL. *)
Theorem C4_cap_on_probes
    (resolveUrl : string -> string -> option string) (base : string)
    (raws : list raw_resource) (checked : list obj) :
  checkResources (toCheckLimited resolveUrl base raws) checked ->
  (MAX_CHECK < length (toCheck resolveUrl base raws))%nat ->
  let probed := take MAX_CHECK (toCheck resolveUrl base raws) in
  let final := resources_of (respond resolveUrl base raws checked) in
  (exists prs : list (obj * obj),
     checked = pushed <$> prs /\ prs.*1 ≡ₚ probed /\ length prs = MAX_CHECK
     /\ Forall (fun pr => probe_data (get pr.1 "resolved") pr.2) prs)
  /\ forall j r f,
       resources resolveUrl base raws !! j = Some r -> final !! j = Some f ->
       checkable r = true ->
       ((get r "resolved" ∉ (fun item => get item "resolved") <$> probed) ->
        get f "status" = VStr "not_checked")
       /\ (get r "resolved" ∈ (fun item => get item "resolved") <$> probed ->
           exists item data,
             item ∈ probed /\ get item "resolved" = get r "resolved"
             /\ probe_data (get r "resolved") data /\ f = pushed (item, data)).
Proof.
  intros Hrun Hmore probed final. split.
  - destruct (checkResources_shape _ _ Hrun) as (prs & Hc & Hd & Hperm).
    exists prs. repeat split; [exact Hc | exact Hperm | | exact Hd].
    rewrite <- (length_fmap fst prs), Hperm. unfold toCheckLimited.
    rewrite length_take. lia.
  - intros j o f Ho Hf Hc. subst final. unfold respond in Hf. cbn [resources_of] in Hf.
    apply resources_elem in Ho as (r & Hr & ->).
    rewrite (final_lookup _ _ _ _ _ _ Hr) in Hf. injection Hf as <-.
    unfold checkable in Hc. rewrite get_resource_resolved, get_resource_skippable in Hc.
    apply andb_true_iff in Hc as [Ht Hs]. simpl in Hs. apply negb_true_iff in Hs.
    rewrite get_resource_resolved.
    destruct (finalize_cases resolveUrl base raws checked Hrun j r Hr)
      as [[Hf _]|[(_ & Hk & _)|[(_ & _ & Hout & ->)|(_ & _ & item & data & Hin & Hv & Hp & ->)]]];
      [congruence | congruence | |].
    + split; [intros _; apply get_note_status | intros Hin; contradiction].
    + split.
      * intros Hout. exfalso. apply Hout. apply list_elem_of_fmap.
        exists item. split; [symmetry; exact Hv | exact Hin].
      * intros _. exists item, data. repeat split; assumption.
Qed.

Lemma C4_witness :
  let checked := probe_all (fun _ => steady_world 50)
                   (toCheckLimited sample_resolveUrl sample_base many_a) in
  let probed := take MAX_CHECK (toCheck sample_resolveUrl sample_base many_a) in
  let final := resources_of (respond sample_resolveUrl sample_base many_a checked) in
  (exists prs : list (obj * obj),
     checked = pushed <$> prs /\ prs.*1 ≡ₚ probed /\ length prs = MAX_CHECK
     /\ Forall (fun pr => probe_data (get pr.1 "resolved") pr.2) prs)
  /\ forall j r f,
       resources sample_resolveUrl sample_base many_a !! j = Some r ->
       final !! j = Some f ->
       checkable r = true ->
       ((get r "resolved" ∉ (fun item => get item "resolved") <$> probed) ->
        get f "status" = VStr "not_checked")
       /\ (get r "resolved" ∈ (fun item => get item "resolved") <$> probed ->
           exists item data,
             item ∈ probed /\ get item "resolved" = get r "resolved"
             /\ probe_data (get r "resolved") data /\ f = pushed (item, data)).
Proof.
  intros checked.
  apply (C4_cap_on_probes sample_resolveUrl sample_base many_a checked).
  - apply probe_all_run.
  - vm_compute. lia.
Defined.

(** C4 as stated fails: of 301 anchors to the same URL, the last lies
    beyond the cap and still ends with the probe record of that URL. *)
Lemma C4_counterexample :
  ~ (forall checked,
       checkResources (toCheckLimited sample_resolveUrl sample_base many_a) checked ->
       capped_not_checked (resources sample_resolveUrl sample_base many_a)
         (resources_of (respond sample_resolveUrl sample_base many_a checked))).
Proof.
  intros H.
  specialize (H _ (probe_all_run (fun _ => steady_world 50)
                     (toCheckLimited sample_resolveUrl sample_base many_a))).
  specialize (H 300%nat (resources sample_resolveUrl sample_base many_a !!! 300%nat)
                (resources_of (steady_out 50 many_a) !!! 300%nat)).
  assert (get (resources_of (steady_out 50 many_a) !!! 300%nat) "status" = VStr "ok")
    as Hok by (vm_compute; reflexivity).
  rewrite H in Hok; [discriminate | | | |].
  - apply list_lookup_lookup_total_lt. vm_compute. lia.
  - apply list_lookup_lookup_total_lt. vm_compute. lia.
  - vm_compute. reflexivity.
  - unfold beyond_cap. vm_compute. lia.
Qed.

(** ** C5: an HTTP error status *)

(** C5 (amended).  When the HEAD request fails and the server answers the
    GET request with an HTTP status of 400 or more, the recorded outcome
    is marked failed (status ['error']), carries that HTTP status, and every
    result carrying the outcome is among the broken results that
    [brokenCount] counts. *)
Theorem C5_error_status_recorded (url : value) (w : world)
    (resp : option Z) (msg shown : string) (s : Z) (hd : headers) :
  wire w (sent w) HEAD url = Rejected resp msg shown ->
  wire w (S (sent w)) GET url = settle s hd ->
  400 <= s ->
  let data := (fetchWithHeadThenGet url w).1 in
  get data "status" = VStr "error"
  /\ get data "httpStatus" = VNum s
  /\ forall (r item : obj) (final : list obj),
       assign r (pushed (item, data)) ∈ final ->
       assign r (pushed (item, data)) ∈ List.filter is_broken final.
Proof.
  intros Hh Hg Hs data.
  destruct (settle_error s hd Hs) as (msg2 & shown2 & Hset). rewrite Hset in Hg.
  assert (data = error_obj (VNum s) (error_text msg2 shown2)
                   (clock w (S (S (reads w))) - clock w (S (reads w)))) as ->.
  { subst data. rewrite (fetch_get_error _ _ _ _ _ _ _ _ Hh Hg).
    unfold error_code, truthy.
    replace (s =? 0)%Z with false by (symmetry; apply Z.eqb_neq; lia). reflexivity. }
  split; [reflexivity|]. split; [reflexivity|].
  intros r item final Hin.
  apply list_elem_of_In. apply filter_In. split; [apply list_elem_of_In; exact Hin|].
  assert (get (assign r (pushed (item, error_obj (VNum s) (error_text msg2 shown2)
                 (clock w (S (S (reads w))) - clock w (S (reads w)))))) "status"
          = VStr "error") as Hst.
  { rewrite get_assign.
    rewrite (lookup_pushed_data item (error_obj _ _ _) "status" (VStr "error") eq_refl).
    reflexivity. }
  unfold is_broken. rewrite Hst. reflexivity.
Qed.

Lemma C5_witness :
  let data := (fetchWithHeadThenGet (VStr "https://example.com/a") (status_world 404)).1 in
  get data "status" = VStr "error"
  /\ get data "httpStatus" = VNum 404
  /\ forall (r item : obj) (final : list obj),
       assign r (pushed (item, data)) ∈ final ->
       assign r (pushed (item, data)) ∈ List.filter is_broken final.
Proof.
  intros data.
  pose proof (C5_error_status_recorded (VStr "https://example.com/a") (status_world 404)
                (Some 404) ("Request failed with status code " ++ pretty 404)
                ("AxiosError: Request failed with status code " ++ pretty 404)
                404 [] eq_refl eq_refl ltac:(lia)) as H.
  exact H.
Defined.

(** C5 as stated fails: a server that answers 404 to both requests is
    recorded with status ['error'], not ['ok']. *)
Lemma C5_counterexample :
  ~ error_status_recorded_ok
      (fetchWithHeadThenGet (VStr "https://example.com/a") (status_world 404)).1 404.
Proof.
  intros [H _]. vm_compute in H. discriminate.
Qed.

(** ** C6: the average response time *)

Lemma foldl_add_foldr (l : list Z) (a : Z) :
  foldl Z.add a l = a + foldr Z.add 0 l.
Proof.
  revert a. induction l as [|x l IH]; intros a; simpl; [lia|].
  rewrite IH. lia.
Qed.

(** [round_div a b] is the integer nearest to [a / b], a tie going up. *)
Lemma round_div_nearest (a b : Z) :
  0 < b -> 2 * b * round_div a b - b <= 2 * a < 2 * b * round_div a b + b.
Proof.
  intros Hb. unfold round_div.
  pose proof (Z.div_mod (2 * a + b) (2 * b) ltac:(lia)) as Hdm.
  pose proof (Z.mod_pos_bound (2 * a + b) (2 * b) ltac:(lia)) as Hm.
  lia.
Qed.

(** In the output of a run, the results with a measured time and status
    ['ok'] are the results with status ['ok']. *)
Lemma timed_ok_items
    (resolveUrl : string -> string -> option string) (base : string)
    (raws : list raw_resource) (checked : list obj) :
  checkResources (toCheckLimited resolveUrl base raws) checked ->
  let final := finalResources (resources resolveUrl base raws) checked in
  List.filter is_timed_ok final = ok_items final
  /\ Forall (fun o => get o "timeMs" = VNum (elapsed o)) (ok_items final).
Proof.
  intros Hrun final.
  assert (forall f, f ∈ final ->
            (is_str (get f "status") "ok" = true -> exists t, get f "timeMs" = VNum t)) as Hok.
  { intros f Hin Hs. apply list_elem_of_lookup in Hin as [j Hj].
    destruct (lookup_lt_is_Some_2 raws j) as [r Hr].
    { apply lookup_lt_Some in Hj. unfold final, finalResources in Hj.
      rewrite length_fmap, resources_length in Hj. exact Hj. }
    destruct (final_status _ _ _ _ Hrun _ _ _ Hr Hj) as [(Hst & _ & _)|[[_ Ht]|Her]].
    - exfalso.
      repeat (apply elem_of_cons in Hst as [Hst|Hst]; [rewrite Hst in Hs; discriminate|]).
      inversion Hst.
    - exact Ht.
    - rewrite Her in Hs. discriminate. }
  split.
  - unfold ok_items. apply filter_ext_in. intros f Hin.
    apply list_elem_of_In in Hin. unfold is_timed_ok.
    destruct (is_str (get f "status") "ok") eqn:Hs; [|apply andb_false_r].
    destruct (Hok f Hin Hs) as [t ->]. reflexivity.
  - apply Forall_forall. intros f Hin. unfold ok_items in Hin.
    apply list_elem_of_In, filter_In in Hin as [Hin Hs].
    apply list_elem_of_In in Hin.
    destruct (Hok f Hin Hs) as [t Ht]. unfold elapsed. rewrite Ht. reflexivity.
Qed.

(** C6 (amended).  [averageResponseMs] is absent exactly when no result of
    the output has status ['ok'].  When present it is the arithmetic mean of
    the elapsed times of exactly the results with status ['ok'], rounded to
    the nearest integer (a tie going up), as [Math.round] does. *)
Theorem C6_average_response
    (resolveUrl : string -> string -> option string) (base : string)
    (raws : list raw_resource) (out : response) :
  analysis resolveUrl base raws out ->
  let final := resources_of out in
  let n := Z.of_nat (length (ok_items final)) in
  (averageResponseMs (summary_of out) = None <-> ok_items final = [])
  /\ Forall (fun o => get o "timeMs" = VNum (elapsed o)) (ok_items final)
  /\ forall a,
       averageResponseMs (summary_of out) = Some a ->
       0 < n /\ a = round_div (total_elapsed final) n
       /\ 2 * n * a - n <= 2 * total_elapsed final < 2 * n * a + n.
Proof.
  intros (checked & Hrun & ->) final n.
  destruct (timed_ok_items _ _ _ _ Hrun) as [Hfilter Htimes].
  unfold respond in *. cbn [resources_of summary_of averageResponseMs] in *.
  subst final n. unfold avgResponse, total_elapsed. rewrite Hfilter.
  set (items := ok_items (finalResources (resources resolveUrl base raws) checked)) in *.
  split; [|split; [exact Htimes|]].
  - destruct items; simpl; split; intros H; (reflexivity || discriminate).
  - intros a Ha.
    assert (0 < Z.of_nat (length items)) as Hpos.
    { destruct items; [discriminate | simpl; lia]. }
    assert (a = round_div (foldr Z.add 0 (elapsed <$> items)) (Z.of_nat (length items))) as ->.
    { unfold elapsed in *. destruct items as [|x items]; [discriminate|].
      injection Ha as <-. rewrite foldl_add_foldr, length_fmap. reflexivity. }
    split; [exact Hpos|]. split; [reflexivity|].
    apply round_div_nearest. exact Hpos.
Qed.

Lemma C6_witness :
  let out := steady_out 50 a_and_b in
  let final := resources_of out in
  let n := Z.of_nat (length (ok_items final)) in
  (averageResponseMs (summary_of out) = None <-> ok_items final = [])
  /\ Forall (fun o => get o "timeMs" = VNum (elapsed o)) (ok_items final)
  /\ forall a,
       averageResponseMs (summary_of out) = Some a ->
       0 < n /\ a = round_div (total_elapsed final) n
       /\ 2 * n * a - n <= 2 * total_elapsed final < 2 * n * a + n.
Proof.
  intros out.
  apply (C6_average_response sample_resolveUrl sample_base a_and_b out).
  apply steady_out_analysis.
Defined.

(** C6 as stated fails: with one probe answered after 1 ms and another
    after 2 ms the reported average is 2, not the mean 3/2. *)
Lemma C6_counterexample :
  ~ (forall out, analysis sample_resolveUrl sample_base a_and_b out ->
                 average_is_mean out).
Proof.
  intros H.
  pose (checked := probe_all (fun i => steady_world (1 + Z.of_nat i))
                     (toCheckLimited sample_resolveUrl sample_base a_and_b)).
  specialize (H (respond sample_resolveUrl sample_base a_and_b checked)).
  specialize (H (ex_intro _ checked (conj (probe_all_run _ _) eq_refl)) 2).
  vm_compute in H. specialize (H eq_refl). discriminate.
Qed.

(** ** C7: the fallback outcome *)



(** ** C8: skippable references *)

(** [isSkippableHref] decides the spec's wording of skippability. *)
Lemma isSkippableHref_spec (href : string) :
  isSkippableHref href = true <-> skippable_spec href.
Proof.
  unfold isSkippableHref, skippable_spec. simpl.
  destruct (String.eqb_spec href "") as [->|Hne]; simpl.
  - split; [intros _; left; reflexivity | reflexivity].
  - set (l := toLowerCase (trim href)).
    rewrite !orb_true_iff. unfold startsWith. rewrite !prefix_spec.
    rewrite !String.eqb_eq. tauto.
Qed.

(** C8 (amended).  A raw reference is skippable exactly when, trimmed and
    lower-cased, it is empty, is [#], or begins with [javascript:],
    [mailto:] or [tel:].  A skippable reference is never handed to the
    pool and its result carries no probe data; it is classified [skipped]
    when its URL resolved and [unresolved] when resolution failed. *)
Theorem C8_skippable_references
    (resolveUrl : string -> string -> option string) (base : string)
    (raws : list raw_resource) (checked : list obj) :
  (forall href, isSkippableHref href = true <-> skippable_spec href)
  /\ forall j r,
       raws !! j = Some r -> isSkippableHref (raw r) = true ->
       exists o f,
         resources resolveUrl base raws !! j = Some o
         /\ resources_of (respond resolveUrl base raws checked) !! j = Some f
         /\ (o ∉ toCheckLimited resolveUrl base raws)
         /\ get f "timeMs" = VUndef /\ get f "httpStatus" = VUndef
         /\ get f "status"
            = VStr (if truthy (get o "resolved") then "skipped" else "unresolved").
Proof.
  split; [apply isSkippableHref_spec|].
  intros j r Hr Hs. unfold respond. cbn [resources_of].
  rewrite (resources_lookup _ _ _ _ _ Hr), (final_lookup _ _ _ _ _ _ Hr).
  eexists _, _. split; [reflexivity|]. split; [reflexivity|].
  split.
  - intros Hin. destruct (limited_elem _ _ _ _ Hin) as [Hc _].
    unfold checkable in Hc. rewrite get_resource_skippable, Hs in Hc.
    rewrite andb_false_r in Hc. discriminate.
  - unfold finalize. rewrite get_resource_resolved, get_resource_skippable, Hs.
    destruct (truthy (resolved_of resolveUrl base r)); simpl;
      rewrite get_note_status, !get_assign_note by discriminate;
      repeat split; reflexivity.
Qed.

Lemma C8_witness :
  (isSkippableHref " JavaScript:void(0)" = true <-> skippable_spec " JavaScript:void(0)")
  /\ exists o f,
       resources sample_resolveUrl sample_base two_hash !! 1%nat = Some o
       /\ resources_of (respond sample_resolveUrl sample_base two_hash []) !! 1%nat = Some f
       /\ (o ∉ toCheckLimited sample_resolveUrl sample_base two_hash)
       /\ get f "timeMs" = VUndef /\ get f "httpStatus" = VUndef
       /\ get f "status"
          = VStr (if truthy (get o "resolved") then "skipped" else "unresolved").
Proof.
  destruct (C8_skippable_references sample_resolveUrl sample_base two_hash []) as [H1 H2].
  split.
  - apply H1.
  - apply (H2 1%nat {| type := "anchor"; raw := "#" |}); reflexivity.
Defined.

(** C8 as stated fails: [mailto://[] is skippable, does not resolve, and
    is classified [unresolved], not [skipped]. *)
Lemma C8_counterexample :
  ~ (forall checked,
       checkResources (toCheckLimited sample_resolveUrl sample_base bad_mailto) checked ->
       skippable_all_skipped bad_mailto
         (resources_of (respond sample_resolveUrl sample_base bad_mailto checked))).
Proof.
  intros H.
  specialize (H _ (probe_all_run (fun _ => steady_world 50)
                     (toCheckLimited sample_resolveUrl sample_base bad_mailto))).
  specialize (H 0%nat {| type := "anchor"; raw := "mailto://[" |}
                (resources_of (steady_out 50 bad_mailto) !!! 0%nat) eq_refl).
  assert (get (resources_of (steady_out 50 bad_mailto) !!! 0%nat) "status"
          = VStr "unresolved") as Hst by (vm_compute; reflexivity).
  rewrite H in Hst; [discriminate | |].
  - apply list_lookup_lookup_total_lt. vm_compute. lia.
  - reflexivity.
Qed.

(** ** C9: the pool is bounded and complete *)

(** A run of the pool has as many steps as the fuel it uses. *)
Lemma fuel_rtc (p p' : pool) :
  rtc step p p' -> (fuel p' <= fuel p)%nat /\ nsteps step (fuel p - fuel p') p p'.
Proof.
  induction 1 as [p|p p1 p' Hs _ [Hle Hn]].
  - split; [reflexivity|]. rewrite Nat.sub_diag. constructor.
  - pose proof (step_fuel _ _ Hs) as Hf. split; [lia|].
    replace (fuel p - fuel p')%nat with (S (fuel p1 - fuel p')) by lia.
    exact (nsteps_l _ _ _ _ _ Hs Hn).
Qed.

(** The run in which probes settle in [front_order] ends with all eight
    workers finished and the records in that order. *)
Lemma front_order_final (items datas : list obj) :
  Forall2 (fun it d => probe_data (get it "resolved") d) (front_order items) datas ->
  rtc step (pool_init items)
    {| queue := []; results := pushed <$> zip (front_order items) datas;
       workers := replicate CONCURRENCY Finished |}.
Proof.
  intros Hall. destruct items as [|item rest].
  - inversion Hall; subst. apply rtc_refl.
  - unfold front_order in *. change (CONCURRENCY - 1)%nat with 7%nat in *.
    set (q := drop 7 rest) in *. set (l := take 7 rest) in *.
    apply Forall2_cons_inv_l in Hall as (d & ds & Hd & Hds & ->).
    apply Forall2_app_inv_l in Hds as (d1 & d2 & H1 & H2 & ->).
    pose proof (Forall2_length _ _ _ H1) as Hlen1.
    set (tail := replicate (7 - length rest) Finished).
    assert (replicate CONCURRENCY Finished = replicate (1 + length l) Finished ++ tail)
      as ->.
    { subst tail l. rewrite <- replicate_add. f_equal.
      rewrite length_take. unfold CONCURRENCY. lia. }
    rewrite pool_init_cons. fold q l tail.
    eapply rtc_trans.
    + apply (front_worker_run item q [] ((Awaiting <$> l) ++ tail) (d :: d1)).
      constructor; assumption.
    + pose proof (in_turn_run 1 l tail ([] ++ (pushed <$> zip (item :: q) (d :: d1))) d2 H2)
        as Hrun.
      assert (([] ++ (pushed <$> zip (item :: q) (d :: d1))) ++ (pushed <$> zip l d2)
              = pushed <$> zip (item :: q ++ l) (d :: d1 ++ d2)) as Heq.
      { rewrite app_nil_l, <- fmap_app. f_equal.
        change (zip (item :: q ++ l) (d :: d1 ++ d2))
          with (zip ((item :: q) ++ l) ((d :: d1) ++ d2)).
        symmetry. apply zip_with_app. simpl. lia. }
      rewrite Heq in Hrun. exact Hrun.
Qed.

(** That run takes one step per item. *)
Lemma probe_all_nsteps (w : nat -> world) (items : list obj) :
  nsteps step (length items) (pool_init items)
    {| queue := []; results := probe_all w items;
       workers := replicate CONCURRENCY Finished |}.
Proof.
  assert (rtc step (pool_init items)
            {| queue := []; results := probe_all w items;
               workers := replicate CONCURRENCY Finished |}) as Hrun.
  { unfold probe_all.
    rewrite (imap_pushed (fun i item => (fetchWithHeadThenGet (get item "resolved") (w i)).1)).
    apply front_order_final.
    generalize (front_order items). intros l. revert w.
    induction l as [|item l IH]; intros w; constructor.
    - apply probe_returned.
    - apply (IH (w ∘ S)). }
  apply fuel_rtc in Hrun as [_ Hn].
  pose proof (inv_fuel _ _ _ (pool_inv_init items)) as Hf.
  unfold fuel at 2 in Hn. cbn [queue workers length] in Hn.
  rewrite awaited_Finished in Hn. cbn [length] in Hn.
  replace (fuel (pool_init items) - (0 + 0))%nat with (length items) in Hn by lia.
  exact Hn.
Qed.

(** What the data of a probe holds. *)
Lemma probe_data_record (url : value) (d : obj) :
  probe_data url d ->
  (d !! "status" = Some (VStr "ok")
   /\ exists s t, d !! "httpStatus" = Some (VNum s) /\ d !! "timeMs" = Some (VNum t))
  \/ (d !! "status" = Some (VStr "error") /\ exists e, d !! "error" = Some (VStr e)).
Proof.
  intros [w|e].
  - destruct (wire w (sent w) HEAD url) as [st hd|resp msg shown] eqn:Hh.
    + left. rewrite (fetch_head_ok _ _ _ _ Hh). split; [reflexivity|].
      eexists _, _. split; reflexivity.
    + destruct (wire w (S (sent w)) GET url) as [st hd|resp2 msg2 shown2] eqn:Hg.
      * left. rewrite (fetch_get_ok _ _ _ _ _ _ _ Hh Hg). split; [reflexivity|].
        eexists _, _. split; reflexivity.
      * right. rewrite (fetch_get_error _ _ _ _ _ _ _ _ Hh Hg). split; [reflexivity|].
        unfold error_text, js_or. destruct (truthy (VStr msg2)); eexists; reflexivity.
  - right. split; [reflexivity|]. exists e. reflexivity.
Qed.

(** What a worker pushes is the completed record of its item. *)
Lemma pushed_completed (item data : obj) :
  probe_data (get item "resolved") data ->
  completed_record item data (pushed (item, data)).
Proof.
  intros Hd.
  assert (forall k v, data !! k = Some v -> get (pushed (item, data)) k = v) as Hget.
  { intros k v Hk. unfold get. rewrite (lookup_pushed_data item data k v Hk). reflexivity. }
  split; [|split].
  - intros key. unfold pushed. apply get_assign.
  - intros key Hkey. exact (pushed_get_resource_key item data key Hd Hkey).
  - destruct (probe_data_record _ _ Hd) as [(Hst & s & t & Hs & Ht)|(Hst & e & He)].
    + left. split; [exact (Hget _ _ Hst)|].
      exists s, t. split; [exact (Hget _ _ Hs) | exact (Hget _ _ Ht)].
    + right. split; [exact (Hget _ _ Hst)|]. exists e. exact (Hget _ _ He).
Qed.

(** C9.  In every state the pool reaches from [pool_init items], at most
    [CONCURRENCY] (8) probes are in flight.  A state reached in [n] steps
    holds [n] results, no run is longer than [length items] steps, and
    every reached state can be run on to the end.  Every result held in a
    reached state is the completed record of an input item: the item's own
    properties with the data of a probe of the item's URL on top, carrying
    the outcome of that probe.  Once all workers have finished, the result
    array has one such record for every input item and no other: the items
    of the records are the input items, each exactly once, in some
    order. *)
Theorem C9_pool_bounded_and_complete (items : list obj) (n : nat) (p : pool) :
  nsteps step n (pool_init items) p ->
  (in_flight p <= CONCURRENCY)%nat
  /\ length (results p) = n /\ (n <= length items)%nat
  /\ (exists p', rtc step p p' /\ all_finished p')
  /\ (forall res, res ∈ results p ->
        exists item data,
          item ∈ items /\ probe_data (get item "resolved") data
          /\ completed_record item data res)
  /\ (all_finished p ->
      exists prs : list (obj * obj),
        results p = pushed <$> prs
        /\ prs.*1 ≡ₚ items
        /\ Forall (fun pr => probe_data (get pr.1 "resolved") pr.2) prs
        /\ length (results p) = length items
        /\ forall k res, results p !! k = Some res ->
             exists item data,
               prs !! k = Some (item, data) /\ completed_record item data res).
Proof.
  intros Hn.
  pose proof (pool_inv_nsteps _ _ _ Hn) as [Hsz (prs0 & Hr0 & Hd0 & Hlen0 & Hperm0) _ Hfuel].
  assert (forall (prs : list (obj * obj)) k res,
            Forall (fun pr => probe_data (get pr.1 "resolved") pr.2) prs ->
            (pushed <$> prs) !! k = Some res ->
            exists item data,
              prs !! k = Some (item, data) /\ probe_data (get item "resolved") data
              /\ completed_record item data res) as Hrec.
  { intros prs k res Hd Hk. rewrite list_lookup_fmap in Hk.
    destruct (prs !! k) as [[item data]|] eqn:Hpr; [|discriminate].
    injection Hk as <-. exists item, data.
    rewrite Forall_forall in Hd.
    pose proof (Hd (item, data) (list_elem_of_lookup_2 _ _ _ Hpr)) as Hp.
    split; [reflexivity|]. split; [exact Hp | exact (pushed_completed _ _ Hp)]. }
  split; [|split; [|split; [|split; [|split]]]].
  - rewrite in_flight_awaited, <- Hsz. apply awaited_length_le.
  - rewrite Hr0, length_fmap. exact Hlen0.
  - lia.
  - apply pool_completes.
  - intros res Hres. rewrite Hr0 in Hres.
    apply list_elem_of_lookup in Hres as [k Hk].
    destruct (Hrec prs0 k res Hd0 Hk) as (item & data & Hpr & Hp & Hc).
    exists item, data. split; [|split; [exact Hp | exact Hc]].
    rewrite Hperm0. apply elem_of_app. left.
    apply list_elem_of_fmap. exists (item, data).
    split; [reflexivity | exact (list_elem_of_lookup_2 _ _ _ Hpr)].
  - intros Hfin.
    destruct (checkResources_shape items (results p)) as (prs & H1 & H2 & H3).
    { exists p. split; [eapply rtc_nsteps_2; exact Hn | split; [exact Hfin | reflexivity]]. }
    exists prs. split; [exact H1|]. split; [exact H3|]. split; [exact H2|]. split.
    + rewrite H1, length_fmap, <- (length_fmap fst prs). apply Permutation_length. exact H3.
    + intros k res Hk. rewrite H1 in Hk.
      destruct (Hrec prs k res H2 Hk) as (item & data & Hpr & _ & Hc).
      exists item, data. split; [exact Hpr | exact Hc].
Qed.

Lemma C9_witness :
  (length ten_items = 10%nat
   /\ in_flight (pool_init ten_items) = CONCURRENCY
   /\ length (queue (pool_init ten_items)) = 2%nat
   /\ (in_flight (pool_init ten_items) <= CONCURRENCY)%nat)
  /\ nsteps step 10 (pool_init ten_items) ten_done
  /\ all_finished ten_done
  /\ (fun r : obj => (get r "type", get r "resolved", get r "status"))
       <$> results ten_done
     = [ (VStr "anchor", VStr "https://example.com/a", VStr "ok");
         (VStr "stylesheet", VStr "https://example.com/a", VStr "ok");
         (VStr "anchor", VStr "http://bad.invalid/x", VStr "error");
         (VStr "anchor", VStr "https://example.com/b", VStr "ok");
         (VStr "anchor", VStr "https://example.com/about", VStr "ok");
         (VStr "image", VStr "https://example.com/a", VStr "ok");
         (VStr "image", VStr "https://example.com/b", VStr "ok");
         (VStr "image", VStr "https://example.com/about", VStr "ok");
         (VStr "script", VStr "https://example.com/a", VStr "ok");
         (VStr "script", VStr "https://example.com/b", VStr "ok") ]
  /\ (in_flight ten_done <= CONCURRENCY)%nat
  /\ length (results ten_done) = 10%nat /\ (10 <= length ten_items)%nat
  /\ (exists p', rtc step ten_done p' /\ all_finished p')
  /\ (forall res, res ∈ results ten_done ->
        exists item data,
          item ∈ ten_items /\ probe_data (get item "resolved") data
          /\ completed_record item data res)
  /\ (all_finished ten_done ->
      exists prs : list (obj * obj),
        results ten_done = pushed <$> prs
        /\ prs.*1 ≡ₚ ten_items
        /\ Forall (fun pr => probe_data (get pr.1 "resolved") pr.2) prs
        /\ length (results ten_done) = length ten_items
        /\ forall k res, results ten_done !! k = Some res ->
             exists item data,
               prs !! k = Some (item, data) /\ completed_record item data res).
Proof.
  assert (length ten_items = 10%nat) as Hlen by (vm_compute; reflexivity).
  pose proof (probe_all_nsteps ten_worlds ten_items) as Hn.
  rewrite Hlen in Hn. fold ten_done in Hn.
  split; [|split; [exact Hn | split; [|split]]].
  - split; [exact Hlen|]. split; [vm_compute; reflexivity|].
    split; [vm_compute; reflexivity|].
    exact (proj1 (C9_pool_bounded_and_complete ten_items 0 (pool_init ten_items)
                    (nsteps_O _ _))).
  - unfold all_finished, ten_done. cbn [workers].
    apply Forall_forall. intros w Hw. apply elem_of_replicate in Hw as [-> _]. reflexivity.
  - vm_compute. reflexivity.
  - exact (C9_pool_bounded_and_complete ten_items 10 ten_done Hn).
Defined.

(** ** C10: unresolved references share the null key *)

(** C10.  If the reference at [f] is the first whose resolution fails and
    the reference at a later position [j] fails to resolve too, then in
    the output the result at [j] has [duplicateOf] equal to the id of the
    result at [f] -- the fallback key of [f] -- although both have
    [resolved] null. *)
Theorem C10_unresolved_marked_duplicate
    (resolveUrl : string -> string -> option string) (base : string)
    (raws : list raw_resource) (checked : list obj)
    (f j : nat) (rf rj : raw_resource) :
  raws !! f = Some rf -> resolveUrl base (raw rf) = None ->
  (forall i ri, (i < f)%nat -> raws !! i = Some ri -> resolveUrl base (raw ri) <> None) ->
  (f < j)%nat -> raws !! j = Some rj -> resolveUrl base (raw rj) = None ->
  exists o_f o_j,
    resources_of (respond resolveUrl base raws checked) !! f = Some o_f
    /\ resources_of (respond resolveUrl base raws checked) !! j = Some o_j
    /\ get o_f "resolved" = VNull /\ get o_j "resolved" = VNull
    /\ get o_f "id" = VStr (fallback_key rf f)
    /\ get o_j "duplicateOf" = get o_f "id".
Proof.
  intros Hf Hnf Hfirst Hlt Hj Hnj.
  assert (resolved_of resolveUrl base rf = VNull) as Ef
    by (unfold resolved_of; rewrite Hnf; reflexivity).
  assert (resolved_of resolveUrl base rj = VNull) as Ej
    by (unfold resolved_of; rewrite Hnj; reflexivity).
  assert (forall n, key_of resolveUrl base rf n = VStr (fallback_key rf n)) as Kf
    by (intros n; unfold key_of; rewrite Ef; reflexivity).
  simpl. rewrite (final_lookup _ _ _ _ _ _ Hf), (final_lookup _ _ _ _ _ _ Hj).
  eexists _, _. split; [reflexivity|]. split; [reflexivity|].
  unfold finalize.
  rewrite !get_resource_resolved.
  rewrite Ef, Ej. simpl.
  rewrite !get_assign_note by discriminate.
  rewrite (first_seen_first resolveUrl base raws f j rf VNull Hf Ef Hlt).
  - rewrite Kf. repeat split; reflexivity.
  - intros i ri Hi Hri. unfold resolved_of.
    destruct (resolveUrl base (raw ri)) eqn:E; [discriminate|].
    exfalso. exact (Hfirst i ri Hi Hri E).
Qed.

Lemma C10_witness :
  exists o_f o_j,
    resources_of (respond sample_resolveUrl sample_base two_broken []) !! 0%nat = Some o_f
    /\ resources_of (respond sample_resolveUrl sample_base two_broken []) !! 1%nat = Some o_j
    /\ get o_f "resolved" = VNull /\ get o_j "resolved" = VNull
    /\ get o_f "id" = VStr (fallback_key {| type := "anchor"; raw := "http://[" |} 0)
    /\ get o_j "duplicateOf" = get o_f "id".
Proof.
  apply (C10_unresolved_marked_duplicate sample_resolveUrl sample_base two_broken []
           0 1 {| type := "anchor"; raw := "http://[" |}
           {| type := "image"; raw := "http://[" |}).
  - reflexivity.
  - reflexivity.
  - intros i ri Hi. lia.
  - lia.
  - reflexivity.
  - reflexivity.
Defined.

(** * The scenarios of the spec, evaluated *)

(** A URL that answers HEAD with 200 after 50 ms: one result, status
    ['ok'], HTTP 200, 50 ms, neither slow nor broken. *)
Example scenario_head_200 :
  let out := steady_out 50 [ {| type := "anchor"; raw := "/a" |} ] in
  (fun o => (get o "status", get o "httpStatus", get o "timeMs")) <$> resources_of out
  = [ (VStr "ok", VNum 200, VNum 50) ]
  /\ summary_of out
     = {| totalResources := 1; checked := 1; brokenCount := 0; slowCount := 0;
          averageResponseMs := Some 50 |}.
Proof. vm_compute. split; reflexivity. Qed.

(** The mixed scenario: the image is skipped, the dead host is the one
    broken result and has no HTTP status.  Both anchors to [/about] come
    out with the record pushed last for their URL, so in this run both
    carry the duplicate marker. *)
Example scenario_mixed :
  (fun o => (get o "status", get o "httpStatus", get o "duplicateOf")) <$> resources_of mixed_out
  = [ (VStr "ok", VNum 200, VStr "https://example.com/about");
      (VStr "ok", VNum 200, VStr "https://example.com/about");
      (VStr "skipped", VUndef, VNull);
      (VStr "error", VNull, VNull) ]
  /\ brokenCount (summary_of mixed_out) = 1%nat
  /\ checked (summary_of mixed_out) = 3%nat.
Proof. vm_compute. repeat split; reflexivity. Qed.

(** The 405 scenario: HEAD is rejected with 405, GET answers 200 after
    50 ms; the record shows 200 and 50 ms. *)
Example scenario_head_405 :
  let data := (fetchWithHeadThenGet (VStr "https://example.com/a") head_405_world).1 in
  (get data "status", get data "httpStatus", get data "timeMs")
  = (VStr "ok", VNum 200, VNum 50).
Proof. vm_compute. reflexivity. Qed.

(** * Further properties of the code *)

(** ** The output list and the summary counts *)

(** X1.  The output list of a run has one result per input reference, in
    input order, and [totalResources] is their number; the result at
    position [j] has the [resolved] value, the [skippable] flag and the id
    that the reference at position [j] gets in the resolution pass. *)
Theorem X1_output_follows_input
    (resolveUrl : string -> string -> option string) (base : string)
    (raws : list raw_resource) (out : response) :
  analysis resolveUrl base raws out ->
  length (resources_of out) = length raws
  /\ totalResources (summary_of out) = length raws
  /\ forall j r,
       raws !! j = Some r ->
       exists f,
         resources_of out !! j = Some f
         /\ get f "resolved" = of_resolved (resolveUrl base (raw r))
         /\ get f "skippable" = VBool (isSkippableHref (raw r))
         /\ get f "id" = js_or (of_resolved (resolveUrl base (raw r)))
                               (VStr (fallback_key r j)).
Proof.
  intros (cs & Hrun & ->). unfold respond. cbn [resources_of summary_of totalResources].
  assert (length (finalResources (resources resolveUrl base raws) cs) = length raws) as Hlen.
  { unfold finalResources. rewrite length_fmap. apply resources_length. }
  split; [exact Hlen|]. split; [exact Hlen|].
  intros j r Hr.
  pose proof (final_lookup resolveUrl base raws cs j r Hr) as Hf.
  destruct (final_base _ _ _ _ Hrun _ _ _ Hr Hf) as (Hid & Hres & Hsk).
  eexists. split; [exact Hf|]. split; [exact Hres|]. split; [exact Hsk | exact Hid].
Qed.

Lemma X1_witness :
  let out := steady_out 50 mixed in
  length (resources_of out) = length mixed
  /\ totalResources (summary_of out) = length mixed
  /\ forall j r,
       mixed !! j = Some r ->
       exists f,
         resources_of out !! j = Some f
         /\ get f "resolved" = of_resolved (sample_resolveUrl sample_base (raw r))
         /\ get f "skippable" = VBool (isSkippableHref (raw r))
         /\ get f "id" = js_or (of_resolved (sample_resolveUrl sample_base (raw r)))
                               (VStr (fallback_key r j)).
Proof.
  intros out.
  apply (X1_output_follows_input sample_resolveUrl sample_base mixed out).
  apply steady_out_analysis.
Defined.

(** X2.  The [checked] count of the summary is the number of records the
    pool returned: the number of checkable resources, capped at
    [MAX_CHECK], hence never more than 300. *)
Theorem X2_checked_count
    (resolveUrl : string -> string -> option string) (base : string)
    (raws : list raw_resource) (cs : list obj) :
  checkResources (toCheckLimited resolveUrl base raws) cs ->
  checked (summary_of (respond resolveUrl base raws cs)) = length cs
  /\ length cs = Nat.min MAX_CHECK (length (toCheck resolveUrl base raws))
  /\ (length cs <= 300)%nat.
Proof.
  intros Hrun. destruct (checkResources_shape _ _ Hrun) as (prs & -> & _ & Hperm).
  assert (length (pushed <$> prs) = length (toCheckLimited resolveUrl base raws)) as Hlen.
  { rewrite length_fmap, <- (length_fmap fst prs), Hperm. reflexivity. }
  unfold respond. cbn [summary_of checked]. rewrite Hlen.
  unfold toCheckLimited, MAX_CHECK. rewrite length_take.
  repeat split; lia.
Qed.

Lemma X2_witness :
  let cs := probe_all (fun _ => steady_world 50)
              (toCheckLimited sample_resolveUrl sample_base many_a) in
  checked (summary_of (respond sample_resolveUrl sample_base many_a cs)) = length cs
  /\ length cs = Nat.min MAX_CHECK (length (toCheck sample_resolveUrl sample_base many_a))
  /\ (length cs <= 300)%nat.
Proof.
  intros cs.
  apply (X2_checked_count sample_resolveUrl sample_base many_a cs).
  apply probe_all_run.
Defined.

Lemma duplicates_from_count (m : gmap value obj) (final : list obj) :
  (length (duplicates_from m final)
   + size (dom m ∪ list_to_set
             (List.filter truthy ((fun o => get o "resolved") <$> final)))
   = length (List.filter truthy ((fun o => get o "resolved") <$> final))
     + size (dom m))%nat.
Proof.
  revert m. induction final as [|r rest IH]; intros m.
  - simpl. rewrite union_empty_r_L. reflexivity.
  - rewrite fmap_cons. cbn [duplicates_from List.filter].
    set (urls := List.filter truthy ((fun o => get o "resolved") <$> rest)) in *.
    destruct (truthy (get r "resolved")) eqn:Ht; [|apply IH].
    rewrite list_to_set_cons. cbn [length].
    destruct (m !! get r "resolved") as [first|] eqn:Hm.
    + specialize (IH m). cbn [length].
      assert (get r "resolved" ∈ dom m) as Hin by (apply elem_of_dom; eauto).
      assert (dom m ∪ ({[get r "resolved"]} ∪ list_to_set urls)
              = dom m ∪ (list_to_set urls : gset value)) as ->.
      { rewrite (assoc_L (∪)), (comm_L (∪) (dom m)).
        rewrite (subseteq_union_1_L {[get r "resolved"]} (dom m)); [reflexivity|].
        apply singleton_subseteq_l. exact Hin. }
      lia.
    + specialize (IH (<[get r "resolved" := r]> m)).
      rewrite dom_insert_L in IH.
      assert (get r "resolved" ∉ dom m) as Hout by (apply not_elem_of_dom; exact Hm).
      rewrite (size_union {[get r "resolved"]} (dom m)) in IH
        by (apply disjoint_singleton_l; exact Hout).
      rewrite size_singleton in IH.
      assert (dom m ∪ ({[get r "resolved"]} ∪ list_to_set urls)
              = ({[get r "resolved"]} ∪ dom m) ∪ (list_to_set urls : gset value))
        as ->.
      { rewrite (assoc_L (∪)), (comm_L (∪) (dom m)). reflexivity. }
      lia.
Qed.

(** The [resolved] values of the output are those of the input, in order. *)
Lemma final_resolved_values
    (resolveUrl : string -> string -> option string) (base : string)
    (raws : list raw_resource) (cs : list obj) :
  checkResources (toCheckLimited resolveUrl base raws) cs ->
  (fun o => get o "resolved") <$> finalResources (resources resolveUrl base raws) cs
  = (fun r => of_resolved (resolveUrl base (raw r))) <$> raws.
Proof.
  intros Hrun. apply list_eq. intros j. rewrite !list_lookup_fmap.
  destruct (raws !! j) as [r|] eqn:Hr; simpl.
  - rewrite (final_lookup _ _ _ _ _ _ Hr). simpl. f_equal.
    pose proof (final_lookup resolveUrl base raws cs j r Hr) as Hf.
    destruct (final_base _ _ _ _ Hrun _ _ _ Hr Hf) as (_ & Hres & _). exact Hres.
  - assert (finalResources (resources resolveUrl base raws) cs !! j = None) as ->;
      [|reflexivity].
    apply lookup_ge_None. unfold finalResources.
    rewrite length_fmap, resources_length. apply lookup_ge_None. exact Hr.
Qed.

(** X3.  In every run, [duplicateCount] is the number of references whose
    URL resolved minus the number of distinct resolved URLs: every
    repetition of a resolved URL is counted once, and references that did
    not resolve are not counted. *)
Theorem X3_duplicate_count
    (resolveUrl : string -> string -> option string) (base : string)
    (raws : list raw_resource) (out : response) :
  analysis resolveUrl base raws out ->
  let urls := List.filter truthy
                ((fun r => of_resolved (resolveUrl base (raw r))) <$> raws) in
  (duplicateCount (resources_of out) + size (list_to_set urls : gset value)
   = length urls)%nat.
Proof.
  intros (cs & Hrun & ->) urls. unfold respond. cbn [resources_of].
  pose proof (duplicates_from_count ∅
                (finalResources (resources resolveUrl base raws) cs)) as H.
  rewrite (final_resolved_values _ _ _ _ Hrun) in H.
  rewrite dom_empty_L, union_empty_l_L, size_empty in H.
  unfold duplicateCount, duplicates. subst urls. lia.
Qed.

Lemma X3_witness :
  let urls := List.filter truthy
                ((fun r => of_resolved (sample_resolveUrl sample_base (raw r))) <$> mixed) in
  (duplicateCount (resources_of (steady_out 50 mixed))
   + size (list_to_set urls : gset value) = length urls)%nat.
Proof.
  apply (X3_duplicate_count sample_resolveUrl sample_base mixed (steady_out 50 mixed)).
  apply steady_out_analysis.
Defined.

(** A reference that trims to the empty string is skippable. *)
Lemma blank_is_skippable (s : string) :
  String.eqb (trim s) "" = true -> isSkippableHref s = true.
Proof.
  intros H. apply String.eqb_eq in H. unfold isSkippableHref.
  destruct (negb (truthy (VStr s))); [reflexivity|].
  rewrite H. reflexivity.
Qed.

Lemma filter_length_Forall2 {A B} (p : A -> bool) (q : B -> bool) l k :
  Forall2 (fun x y => p x = q y) l k ->
  length (List.filter p l) = length (List.filter q k).
Proof.
  induction 1 as [|x y l k Hxy _ IH]; [reflexivity|].
  simpl. rewrite Hxy. destruct (q y); simpl; rewrite IH; reflexivity.
Qed.

(** A result is counted as unnecessary exactly when its reference is
    skippable. *)
Lemma final_unnecessary
    (resolveUrl : string -> string -> option string) (base : string)
    (raws : list raw_resource) (cs : list obj) (j : nat) (r : raw_resource) (f : obj) :
  checkResources (toCheckLimited resolveUrl base raws) cs ->
  raws !! j = Some r ->
  finalResources (resources resolveUrl base raws) cs !! j = Some f ->
  is_unnecessary f = isSkippableHref (raw r).
Proof.
  intros Hrun Hr Hf. rewrite (final_lookup _ _ _ _ _ _ Hr) in Hf. injection Hf as <-.
  assert (forall s, isSkippableHref s = false ->
            truthy (VBool false)
            || truthy (VStr s) && String.eqb (trim s) "" = false) as Hblank.
  { intros s Hs. simpl. destruct (String.eqb (trim s) "") eqn:E.
    - apply blank_is_skippable in E. congruence.
    - apply andb_false_r. }
  destruct (finalize_cases resolveUrl base raws cs Hrun j r Hr)
    as [[_ ->]|[(_ & _ & ->)|[(_ & _ & _ & ->)|(Ht & Hs & item & data & Hin & Hv & Hp & ->)]]].
  1-3: unfold is_unnecessary; rewrite !get_assign_note by discriminate;
       rewrite get_resource_skippable;
       change (get (resource_obj ?a ?b (VStr (raw r)) ?c ?d ?e) "raw") with (VStr (raw r));
       destruct (isSkippableHref (raw r)) eqn:Hsk; [reflexivity | apply Hblank; exact Hsk].
  rewrite <- Hv in Hp. unfold is_unnecessary.
  rewrite !(pushed_get_resource_key _ _ _ Hp) by (unfold resource_keys; set_solver).
  destruct (limited_item_shape _ _ _ _ Hin) as (j' & r' & d & _ & -> & _ & Hs').
  rewrite get_resource_skippable.
  change (get (resource_obj ?a ?b (VStr (raw r')) ?c ?d ?e) "raw") with (VStr (raw r')).
  rewrite Hs', Hs. apply Hblank. exact Hs'.
Qed.

(** X4.  In every run, [unnecessaryCount] is the number of input
    references that are skippable; the blank-reference test of the filter
    never adds a result. *)
Theorem X4_unnecessary_count
    (resolveUrl : string -> string -> option string) (base : string)
    (raws : list raw_resource) (out : response) :
  analysis resolveUrl base raws out ->
  unnecessaryCount (resources_of out)
  = length (List.filter (fun r => isSkippableHref (raw r)) raws).
Proof.
  intros (cs & Hrun & ->). unfold respond. cbn [resources_of].
  unfold unnecessaryCount. apply filter_length_Forall2.
  apply Forall2_same_length_lookup_2.
  - unfold finalResources. rewrite length_fmap. apply resources_length.
  - intros j f r Hf Hr. exact (final_unnecessary _ _ _ _ _ _ _ Hrun Hr Hf).
Qed.

Lemma X4_witness :
  unnecessaryCount (resources_of (steady_out 50 mixed))
  = length (List.filter (fun r => isSkippableHref (raw r)) mixed).
Proof.
  apply (X4_unnecessary_count sample_resolveUrl sample_base mixed (steady_out 50 mixed)).
  apply steady_out_analysis.
Defined.

(** ** The merge of probe records *)

(** X5.  In every run, two checkable references with the same resolved
    URL, that URL being among the probed ones, come out as one and the
    same record: type, raw text, duplicate marker and probe data are those
    of whichever record [checkedMap] kept for the URL. *)
Theorem X5_same_url_same_record
    (resolveUrl : string -> string -> option string) (base : string)
    (raws : list raw_resource) (cs : list obj)
    (i j : nat) (ri rj : raw_resource) (fi fj : obj) :
  checkResources (toCheckLimited resolveUrl base raws) cs ->
  raws !! i = Some ri -> raws !! j = Some rj ->
  resources_of (respond resolveUrl base raws cs) !! i = Some fi ->
  resources_of (respond resolveUrl base raws cs) !! j = Some fj ->
  resolved_of resolveUrl base ri = resolved_of resolveUrl base rj ->
  truthy (resolved_of resolveUrl base ri) = true ->
  isSkippableHref (raw ri) = false -> isSkippableHref (raw rj) = false ->
  resolved_of resolveUrl base ri
    ∈ (fun item => get item "resolved") <$> toCheckLimited resolveUrl base raws ->
  fi = fj.
Proof.
  intros Hrun Hi Hj Hfi Hfj Heq Ht Hsi Hsj Hin.
  unfold respond in Hfi, Hfj. cbn [resources_of] in Hfi, Hfj.
  destruct (checkedMap cs !! resolved_of resolveUrl base ri) as [found|] eqn:Hfound.
  2:{ exfalso. apply (found_none _ _ _ _ Hrun) in Hfound. contradiction. }
  rewrite (finalize_found _ _ _ _ _ _ _ _ Hrun Hi Hfi Ht Hsi Hfound).
  rewrite Heq in Ht, Hfound.
  rewrite (finalize_found _ _ _ _ _ _ _ _ Hrun Hj Hfj Ht Hsj Hfound).
  reflexivity.
Qed.

Lemma X5_witness :
  let cs := probe_all (fun _ => steady_world 50)
              (toCheckLimited sample_resolveUrl sample_base mixed) in
  resources_of (respond sample_resolveUrl sample_base mixed cs) !!! 0%nat
  = resources_of (respond sample_resolveUrl sample_base mixed cs) !!! 1%nat.
Proof.
  intros cs.
  apply (X5_same_url_same_record sample_resolveUrl sample_base mixed cs 0 1
           {| type := "anchor"; raw := "/about" |} {| type := "anchor"; raw := "/about" |}).
  - apply probe_all_run.
  - reflexivity.
  - reflexivity.
  - apply list_lookup_lookup_total_lt. vm_compute. lia.
  - apply list_lookup_lookup_total_lt. vm_compute. lia.
  - reflexivity.
  - reflexivity.
  - reflexivity.
  - reflexivity.
  - vm_compute. left.
Defined.

(** X6.  In every run, a probed resource whose resolved URL no other
    probed resource has comes out as its own object with the data of a
    probe of that URL on top: its type, raw text and duplicate marker are
    kept. *)
Theorem X6_unique_url_keeps_fields
    (resolveUrl : string -> string -> option string) (base : string)
    (raws : list raw_resource) (cs : list obj) (j : nat) (o f : obj) :
  checkResources (toCheckLimited resolveUrl base raws) cs ->
  resources resolveUrl base raws !! j = Some o ->
  resources_of (respond resolveUrl base raws cs) !! j = Some f ->
  o ∈ toCheckLimited resolveUrl base raws ->
  (forall item, item ∈ toCheckLimited resolveUrl base raws ->
                get item "resolved" = get o "resolved" -> item = o) ->
  exists data,
    probe_data (get o "resolved") data /\ f = pushed (o, data)
    /\ get f "type" = get o "type" /\ get f "raw" = get o "raw"
    /\ get f "duplicateOf" = get o "duplicateOf".
Proof.
  intros Hrun Ho Hf Hin Huniq.
  unfold respond in Hf. cbn [resources_of] in Hf.
  destruct (limited_elem _ _ _ _ Hin) as [Hc _].
  apply resources_elem in Ho as (r & Hr & ->).
  rewrite (final_lookup _ _ _ _ _ _ Hr) in Hf. injection Hf as <-.
  rewrite get_resource_resolved in *.
  destruct (finalize_cases resolveUrl base raws cs Hrun j r Hr)
    as [[Hf _]|[(_ & Hk & _)|[(_ & _ & Hout & _)|(_ & _ & item & data & Hin' & Hv & Hp & ->)]]].
  - unfold checkable in Hc. rewrite get_resource_resolved, Hf in Hc. discriminate.
  - unfold checkable in Hc. rewrite get_resource_skippable, Hk in Hc.
    rewrite andb_false_r in Hc. discriminate.
  - exfalso. apply Hout. apply list_elem_of_fmap. eexists. split; [|exact Hin].
    rewrite get_resource_resolved. reflexivity.
  - rewrite (Huniq item Hin' Hv). exists data. split; [exact Hp|]. split; [reflexivity|].
    assert (probe_data (get (resource_obj (key_of resolveUrl base r j) (VStr (type r))
              (VStr (raw r)) (resolved_of resolveUrl base r)
              (VBool (isSkippableHref (raw r)))
              (match first_seen resolveUrl base (take j raws) (resolved_of resolveUrl base r) with
               | Some (i, r') => key_of resolveUrl base r' i
               | None => VNull
               end)) "resolved") data) as Hp'
      by (rewrite get_resource_resolved; exact Hp).
    rewrite !(pushed_get_resource_key _ _ _ Hp') by (unfold resource_keys; set_solver).
    repeat split; reflexivity.
Qed.

Lemma X6_witness :
  let cs := probe_all (fun _ => steady_world 50)
              (toCheckLimited sample_resolveUrl sample_base a_and_b) in
  let o := resources sample_resolveUrl sample_base a_and_b !!! 1%nat in
  let f := resources_of (respond sample_resolveUrl sample_base a_and_b cs) !!! 1%nat in
  exists data,
    probe_data (get o "resolved") data /\ f = pushed (o, data)
    /\ get f "type" = get o "type" /\ get f "raw" = get o "raw"
    /\ get f "duplicateOf" = get o "duplicateOf".
Proof.
  intros cs o f.
  apply (X6_unique_url_keeps_fields sample_resolveUrl sample_base a_and_b cs 1).
  - apply probe_all_run.
  - apply list_lookup_lookup_total_lt. vm_compute. lia.
  - apply list_lookup_lookup_total_lt. vm_compute. lia.
  - right. left.
  - intros item Hitem Hres.
    apply elem_of_cons in Hitem as [->|Hitem].
    + vm_compute in Hres. discriminate.
    + apply elem_of_cons in Hitem as [->|Hitem]; [reflexivity | inversion Hitem].
Defined.

Lemma NoDup_fst_functional {K V} (l : list (K * V)) k x y :
  NoDup l.*1 -> (k, x) ∈ l -> (k, y) ∈ l -> x = y.
Proof.
  induction l as [|[k' z] l IH]; intros Hnd Hx Hy; [inversion Hx|].
  simpl in Hnd. apply NoDup_cons in Hnd as [Hk Hnd].
  apply elem_of_cons in Hx as [Hx|Hx]; apply elem_of_cons in Hy as [Hy|Hy].
  - congruence.
  - injection Hx as -> ->. exfalso. apply Hk.
    apply list_elem_of_fmap. exists (k', y). split; [reflexivity | exact Hy].
  - injection Hy as -> ->. exfalso. apply Hk.
    apply list_elem_of_fmap. exists (k', x). split; [reflexivity | exact Hx].
  - exact (IH Hnd Hx Hy).
Qed.

(** With pairwise different keys, [new Map(entries)] does not depend on
    the order of the entries. *)
Lemma Map_of_permutation {V} (l1 l2 : list (value * V)) :
  l1 ≡ₚ l2 -> NoDup l1.*1 -> Map_of l1 = Map_of l2.
Proof.
  intros Hperm Hnd. apply map_eq. intros k.
  destruct (Map_of l1 !! k) as [x|] eqn:H1.
  - apply Map_of_Some in H1.
    destruct (Map_of l2 !! k) as [y|] eqn:H2.
    + apply Map_of_Some in H2. rewrite <- Hperm in H2.
      f_equal. exact (NoDup_fst_functional l1 k x y Hnd H1 H2).
    + exfalso. apply Map_of_None in H2. apply H2. rewrite <- Hperm.
      apply list_elem_of_fmap. exists (k, x). split; [reflexivity | exact H1].
  - apply Map_of_None in H1. symmetry. apply Map_of_None. rewrite <- Hperm. exact H1.
Qed.

(** X7.  The response does not depend on the order in which the probes
    settled when the probed URLs are pairwise different: two result
    arrays that hold the same records in different orders give the same
    response. *)
Theorem X7_completion_order_irrelevant
    (resolveUrl : string -> string -> option string) (base : string)
    (raws : list raw_resource) (cs1 cs2 : list obj) :
  cs1 ≡ₚ cs2 ->
  NoDup ((fun c => get c "resolved") <$> cs1) ->
  respond resolveUrl base raws cs1 = respond resolveUrl base raws cs2.
Proof.
  intros Hperm Hnd.
  assert (checkedMap cs1 = checkedMap cs2) as Hcm.
  { unfold checkedMap. apply Map_of_permutation.
    - rewrite Hperm. reflexivity.
    - rewrite <- list_fmap_compose. exact Hnd. }
  unfold respond, finalResources. rewrite Hcm. reflexivity.
Qed.

Lemma X7_witness :
  let cs := probe_all (fun i => steady_world (1 + Z.of_nat i))
              (toCheckLimited sample_resolveUrl sample_base a_and_b) in
  respond sample_resolveUrl sample_base a_and_b cs
  = respond sample_resolveUrl sample_base a_and_b (reverse cs).
Proof.
  intros cs.
  apply (X7_completion_order_irrelevant sample_resolveUrl sample_base a_and_b cs (reverse cs)).
  - symmetry. apply reverse_Permutation.
  - vm_compute. apply NoDup_cons. split; [|apply NoDup_singleton].
    intros H. apply elem_of_cons in H as [H|H]; [discriminate | inversion H].
Defined.

(** X8.  In every run, a result classified [unresolved], [skipped] or
    [not_checked] carries no HTTP status and no time, and is counted
    neither as broken, nor as slow, nor in the average response time. *)
Theorem X8_unprobed_not_counted
    (resolveUrl : string -> string -> option string) (base : string)
    (raws : list raw_resource) (out : response) (j : nat) (f : obj) :
  analysis resolveUrl base raws out ->
  resources_of out !! j = Some f ->
  get f "status" ∈ [VStr "unresolved"; VStr "skipped"; VStr "not_checked"] ->
  get f "httpStatus" = VUndef /\ get f "timeMs" = VUndef
  /\ is_broken f = false /\ is_slow f = false /\ is_timed_ok f = false.
Proof.
  intros (cs & Hrun & ->) Hf Hst. unfold respond in Hf. cbn [resources_of] in Hf.
  destruct (lookup_lt_is_Some_2 raws j) as [r Hr].
  { apply lookup_lt_Some in Hf. unfold finalResources in Hf.
    rewrite length_fmap, resources_length in Hf. exact Hf. }
  rewrite (final_lookup _ _ _ _ _ _ Hr) in Hf. injection Hf as <-.
  destruct (finalize_cases resolveUrl base raws cs Hrun j r Hr)
    as [[_ Hf]|[(_ & _ & Hf)|[(_ & _ & _ & Hf)|(_ & _ & item & data & _ & _ & Hp & Hf)]]];
    rewrite Hf in *.
  1-3: unfold is_broken, is_slow, is_timed_ok;
       rewrite get_note_status, !get_assign_note by discriminate;
       repeat split; reflexivity.
  exfalso. destruct (pushed_get_status item data _ Hp) as [Hs _]. rewrite Hs in Hst.
  destruct (probe_data_status _ _ Hp) as [[Hok _]|Her];
    [rewrite Hok in Hst | rewrite Her in Hst];
    repeat (apply elem_of_cons in Hst as [Hst|Hst]; [discriminate|]);
    inversion Hst.
Qed.

Lemma X8_witness :
  let out := steady_out 50 mixed in
  let f := resources_of out !!! 2%nat in
  get f "httpStatus" = VUndef /\ get f "timeMs" = VUndef
  /\ is_broken f = false /\ is_slow f = false /\ is_timed_ok f = false.
Proof.
  intros out f.
  apply (X8_unprobed_not_counted sample_resolveUrl sample_base mixed out 2).
  - apply steady_out_analysis.
  - apply list_lookup_lookup_total_lt. vm_compute. lia.
  - vm_compute. right. left.
Defined.

(** ** The resolution pass *)

Lemma key_of_not_null resolveUrl base r j : key_of resolveUrl base r j <> VNull.
Proof.
  unfold key_of, js_or.
  destruct (truthy (resolved_of resolveUrl base r)) eqn:Ht; [|discriminate].
  intros H. rewrite H in Ht. discriminate.
Qed.

(** X9.  In the list the resolution pass produces, the duplicate marker of
    a reference is null exactly when no earlier reference has the same
    resolution value (the same URL, or null for a failed resolution);
    otherwise it is the id given to the first reference with that value. *)
Theorem X9_resolution_marks
    (resolveUrl : string -> string -> option string) (base : string)
    (raws : list raw_resource) (j : nat) (r : raw_resource) (o : obj) :
  raws !! j = Some r ->
  resources resolveUrl base raws !! j = Some o ->
  (get o "duplicateOf" = VNull <->
   forall i ri, (i < j)%nat -> raws !! i = Some ri ->
                resolveUrl base (raw ri) <> resolveUrl base (raw r))
  /\ forall i ri oi,
       (i < j)%nat -> raws !! i = Some ri ->
       resolveUrl base (raw ri) = resolveUrl base (raw r) ->
       (forall k rk, (k < i)%nat -> raws !! k = Some rk ->
                     resolveUrl base (raw rk) <> resolveUrl base (raw r)) ->
       resources resolveUrl base raws !! i = Some oi ->
       get o "duplicateOf" = get oi "id" /\ get oi "id" <> VNull.
Proof.
  intros Hr Ho. rewrite (resources_lookup _ _ _ _ _ Hr) in Ho. injection Ho as <-.
  rewrite get_resource_duplicateOf.
  assert (forall a b, of_resolved a = of_resolved b <-> a = b) as Hinj.
  { intros [a|] [b|]; simpl; split; congruence. }
  split; [split|].
  - intros Hnull i ri Hi Hri Heq.
    destruct (first_seen resolveUrl base (take j raws) (resolved_of resolveUrl base r))
      as [[i' r']|] eqn:Hfs.
    + exact (key_of_not_null _ _ _ _ Hnull).
    + apply list_find_None in Hfs. rewrite Forall_forall in Hfs.
      apply (Hfs ri).
      * apply list_elem_of_lookup. exists i. rewrite lookup_take_lt by exact Hi. exact Hri.
      * unfold resolved_of. apply Hinj. exact Heq.
  - intros Hnone.
    destruct (first_seen resolveUrl base (take j raws) (resolved_of resolveUrl base r))
      as [[i' r']|] eqn:Hfs; [|reflexivity].
    exfalso. apply list_find_Some in Hfs as (Hi' & Heq & _).
    apply lookup_take_Some in Hi' as [Hi' Hlt].
    apply (Hnone i' r' Hlt Hi'). apply Hinj. exact Heq.
  - intros i ri oi Hi Hri Heq Hfirst Hoi.
    rewrite (resources_lookup _ _ _ _ _ Hri) in Hoi. injection Hoi as <-.
    rewrite get_resource_id.
    assert (first_seen resolveUrl base (take j raws) (resolved_of resolveUrl base r)
            = Some (i, ri)) as ->.
    { apply first_seen_first; [exact Hri | | exact Hi |].
      - unfold resolved_of. apply Hinj. exact Heq.
      - intros k rk Hk Hrk Hc. apply (Hfirst k rk Hk Hrk). apply Hinj. exact Hc. }
    split; [reflexivity | apply key_of_not_null].
Qed.

Lemma X9_witness :
  let o := resources sample_resolveUrl sample_base two_broken !!! 1%nat in
  let r := {| type := "image"; raw := "http://[" |} in
  (get o "duplicateOf" = VNull <->
   forall i ri, (i < 1)%nat -> two_broken !! i = Some ri ->
                sample_resolveUrl sample_base (raw ri) <> sample_resolveUrl sample_base (raw r))
  /\ forall i ri oi,
       (i < 1)%nat -> two_broken !! i = Some ri ->
       sample_resolveUrl sample_base (raw ri) = sample_resolveUrl sample_base (raw r) ->
       (forall k rk, (k < i)%nat -> two_broken !! k = Some rk ->
                     sample_resolveUrl sample_base (raw rk)
                     <> sample_resolveUrl sample_base (raw r)) ->
       resources sample_resolveUrl sample_base two_broken !! i = Some oi ->
       get o "duplicateOf" = get oi "id" /\ get oi "id" <> VNull.
Proof.
  intros o r.
  apply (X9_resolution_marks sample_resolveUrl sample_base two_broken 1 r o).
  - reflexivity.
  - apply list_lookup_lookup_total_lt. vm_compute. lia.
Defined.

(** ** [isSkippableHref] *)

Lemma is_space_lower (c : ascii) : is_space (lower_char c) = is_space c.
Proof. destruct c as [[] [] [] [] [] [] [] []]; reflexivity. Qed.

Lemma lower_char_idem (c : ascii) : lower_char (lower_char c) = lower_char c.
Proof. destruct c as [[] [] [] [] [] [] [] []]; reflexivity. Qed.

Lemma toLowerCase_idem (s : string) : toLowerCase (toLowerCase s) = toLowerCase s.
Proof.
  induction s as [|c s IH]; [reflexivity|].
  cbn [toLowerCase]. rewrite lower_char_idem, IH. reflexivity.
Qed.

Lemma trimEnd_cons (c : ascii) (s : string) :
  trimEnd (String c s)
  = match trimEnd s with
    | EmptyString => if is_space c then EmptyString else String c EmptyString
    | t => String c t
    end.
Proof. reflexivity. Qed.

Lemma trimStart_lower (s : string) :
  trimStart (toLowerCase s) = toLowerCase (trimStart s).
Proof.
  induction s as [|c s IH]; [reflexivity|].
  cbn [toLowerCase trimStart]. rewrite is_space_lower.
  destruct (is_space c); [exact IH | reflexivity].
Qed.

Lemma trimEnd_lower (s : string) :
  trimEnd (toLowerCase s) = toLowerCase (trimEnd s).
Proof.
  induction s as [|c s IH]; [reflexivity|].
  cbn [toLowerCase]. rewrite !trimEnd_cons, IH, is_space_lower.
  destruct (trimEnd s); cbn [toLowerCase]; [destruct (is_space c)|]; reflexivity.
Qed.

Lemma trim_lower (s : string) : trim (toLowerCase s) = toLowerCase (trim s).
Proof. unfold trim. rewrite trimStart_lower, trimEnd_lower. reflexivity. Qed.

Lemma trimEnd_idem (s : string) : trimEnd (trimEnd s) = trimEnd s.
Proof.
  induction s as [|c s IH]; [reflexivity|].
  rewrite trimEnd_cons. destruct (trimEnd s) as [|d t] eqn:E.
  - destruct (is_space c) eqn:Hc; [reflexivity|].
    rewrite trimEnd_cons. cbn [trimEnd]. rewrite Hc. reflexivity.
  - rewrite trimEnd_cons, IH. reflexivity.
Qed.

(** What [trimStart] leaves does not begin with white space, and neither
    does its [trimEnd]. *)
Lemma trimStart_trimEnd (s : string) :
  trimStart (trimEnd (trimStart s)) = trimEnd (trimStart s).
Proof.
  induction s as [|c s IH]; [reflexivity|].
  cbn [trimStart]. destruct (is_space c) eqn:Hc; [exact IH|].
  rewrite trimEnd_cons.
  destruct (trimEnd s); [rewrite Hc|]; cbn [trimStart]; rewrite Hc; reflexivity.
Qed.

Lemma trim_idem (s : string) : trim (trim s) = trim s.
Proof. unfold trim. rewrite trimStart_trimEnd. apply trimEnd_idem. Qed.

(** X10.  [isSkippableHref] ignores white space around the reference and
    the case of its letters. *)
Theorem X10_isSkippableHref_trim_case (href : string) :
  isSkippableHref (trim href) = isSkippableHref href
  /\ isSkippableHref (toLowerCase href) = isSkippableHref href.
Proof.
  split.
  - destruct href as [|c s]; [reflexivity|].
    unfold isSkippableHref at 2. cbn [truthy String.eqb negb].
    unfold isSkippableHref.
    destruct (trim (String c s)) as [|d t] eqn:E; [reflexivity|].
    cbn [truthy String.eqb negb]. rewrite <- E, trim_idem. reflexivity.
  - unfold isSkippableHref.
    rewrite trim_lower, toLowerCase_idem.
    destruct href; reflexivity.
Qed.

(** ** The probe: requests, clock readings, axios *)

(** X11.  A probe sends one request when the HEAD request is fulfilled and
    two otherwise, never more; it reads the clock two or three times and
    changes nothing else of the world; its outcome is ['ok'] exactly when
    one of the requests it sent was fulfilled, and ['error'] otherwise. *)
Theorem X11_probe_requests (url : value) (w : world) :
  let head := wire w (sent w) HEAD url in
  let fallback := wire w (S (sent w)) GET url in
  let data := (fetchWithHeadThenGet url w).1 in
  let w' := (fetchWithHeadThenGet url w).2 in
  sent w' = ((if is_fulfilled head then 1 else 2) + sent w)%nat
  /\ reads w' = ((if is_fulfilled head then 2 else 3) + reads w)%nat
  /\ clock w' = clock w /\ wire w' = wire w
  /\ (get data "status" = VStr "ok" <-> is_fulfilled head || is_fulfilled fallback = true)
  /\ (get data "status" = VStr "error"
      <-> is_fulfilled head || is_fulfilled fallback = false).
Proof.
  intros head fallback data w'. subst head fallback data w'.
  unfold fetchWithHeadThenGet, bind, Date_now, axios_request. cbn [clock reads wire sent].
  destruct (wire w (sent w) HEAD url) as [st hd|resp msg shown].
  - cbn. repeat split; try reflexivity; try discriminate.
  - cbn [clock reads wire sent].
    destruct (wire w (S (sent w)) GET url) as [st hd|resp2 msg2 shown2];
      cbn; repeat split; try reflexivity; try discriminate.
Qed.

(** X12.  With a clock that never goes back, the time a probe records is
    not negative and not more than the time between its first and its last
    clock reading. *)
Theorem X12_elapsed_bounds (url : value) (w : world) :
  (forall n, clock w n <= clock w (S n)) ->
  let data := (fetchWithHeadThenGet url w).1 in
  let w' := (fetchWithHeadThenGet url w).2 in
  exists t, get data "timeMs" = VNum t
            /\ 0 <= t <= clock w (Nat.pred (reads w')) - clock w (reads w).
Proof.
  intros Hmono data w'. subst data w'.
  pose proof (Hmono (reads w)) as H0. pose proof (Hmono (S (reads w))) as H1.
  unfold fetchWithHeadThenGet, bind, Date_now, axios_request. cbn [clock reads wire sent].
  destruct (wire w (sent w) HEAD url) as [st hd|resp msg shown].
  - cbn. eexists. split; [reflexivity|]. lia.
  - cbn [clock reads wire sent].
    destruct (wire w (S (sent w)) GET url) as [st hd|resp2 msg2 shown2];
      cbn; (eexists; split; [reflexivity|]; lia).
Qed.

Lemma X12_witness :
  let data := (fetchWithHeadThenGet (VStr "https://example.com/a") head_405_world).1 in
  let w' := (fetchWithHeadThenGet (VStr "https://example.com/a") head_405_world).2 in
  exists t, get data "timeMs" = VNum t
            /\ 0 <= t <= clock head_405_world (Nat.pred (reads w'))
                         - clock head_405_world (reads head_405_world).
Proof.
  apply (X12_elapsed_bounds (VStr "https://example.com/a") head_405_world).
  intros [|[|[|n]]]; cbn; lia.
Defined.

(** X13.  When requests settle as [axios] settles them by default, an
    ['ok'] outcome carries a status from 200 to 299, and a result that
    carries the outcome of a probe is broken exactly when the outcome is
    ['error']: the test on an HTTP status of 400 or more adds nothing. *)
Theorem X13_axios_ok_is_2xx (url : value) (w : world) :
  axios_world w ->
  let data := (fetchWithHeadThenGet url w).1 in
  (get data "status" = VStr "ok" ->
   exists s, get data "httpStatus" = VNum s /\ 200 <= s < 300)
  /\ forall r item : obj,
       is_broken (assign r (pushed (item, data))) = true
       <-> get data "status" = VStr "error".
Proof.
  intros Hax data.
  assert (forall n m st hd, wire w n m url = Fulfilled st hd -> 200 <= st < 300) as H2xx.
  { intros n m st hd Hw. destruct (Hax n m url) as [(s & hd' & Hs)|(msg & shown & Hs)];
      rewrite Hs in Hw; [|discriminate].
    unfold settle in Hw. destruct (validateStatus s) eqn:Hv; [|discriminate].
    injection Hw as <- _. unfold validateStatus in Hv.
    apply andb_true_iff in Hv as [Ha Hb]. lia. }
  assert (forall st t hd (r item : obj), 200 <= st < 300 ->
            is_broken (assign r (pushed (item, ok_obj st t hd))) = false) as Hok.
  { intros st t hd r item Hst. unfold is_broken.
    rewrite !get_assign.
    rewrite (lookup_pushed_data item (ok_obj st t hd) "status" (VStr "ok") eq_refl).
    rewrite (lookup_pushed_data item (ok_obj st t hd) "httpStatus" (VNum st) eq_refl).
    cbn [is_str String.eqb Ascii.eqb orb num_ge].
    replace (400 <=? st)%Z with false by (symmetry; apply Z.leb_gt; lia).
    rewrite andb_false_r. reflexivity. }
  assert (forall c e t (r item : obj),
            is_broken (assign r (pushed (item, error_obj c e t))) = true) as Herr.
  { intros c e t r item. unfold is_broken. rewrite !get_assign.
    rewrite (lookup_pushed_data item (error_obj c e t) "status" (VStr "error") eq_refl).
    reflexivity. }
  subst data.
  destruct (wire w (sent w) HEAD url) as [st hd|resp msg shown] eqn:Hh.
  - rewrite (fetch_head_ok _ _ _ _ Hh). pose proof (H2xx _ _ _ _ Hh) as Hst. split.
    + intros _. exists st. split; [reflexivity | exact Hst].
    + intros r item. rewrite (Hok _ _ _ _ _ Hst). split; discriminate.
  - destruct (wire w (S (sent w)) GET url) as [st hd|resp2 msg2 shown2] eqn:Hg.
    + rewrite (fetch_get_ok _ _ _ _ _ _ _ Hh Hg). pose proof (H2xx _ _ _ _ Hg) as Hst. split.
      * intros _. exists st. split; [reflexivity | exact Hst].
      * intros r item. rewrite (Hok _ _ _ _ _ Hst). split; discriminate.
    + rewrite (fetch_get_error _ _ _ _ _ _ _ _ Hh Hg). split.
      * discriminate.
      * intros r item. rewrite Herr. split; reflexivity.
Qed.

Lemma X13_witness :
  let data := (fetchWithHeadThenGet (VStr "https://example.com/a") (status_world 404)).1 in
  (get data "status" = VStr "ok" ->
   exists s, get data "httpStatus" = VNum s /\ 200 <= s < 300)
  /\ forall r item : obj,
       is_broken (assign r (pushed (item, data))) = true
       <-> get data "status" = VStr "error".
Proof.
  apply (X13_axios_ok_is_2xx (VStr "https://example.com/a") (status_world 404)).
  intros n m url. left. exists 404, []. reflexivity.
Defined.

(** ** The result table against the summary *)

Lemma filter_length_le {A} (p q : A -> bool) (l : list A) :
  (forall x, p x = true -> q x = true) ->
  (length (List.filter p l) <= length (List.filter q l))%nat.
Proof.
  intros Hpq. induction l as [|x l IH]; [reflexivity|].
  cbn [List.filter]. destruct (p x) eqn:Hp.
  - rewrite (Hpq x Hp). cbn [length]. lia.
  - destruct (q x); cbn [length]; lia.
Qed.

Lemma row_bad_broken (r : obj) :
  String.eqb (row_class r) "bad" = true -> is_broken r = true.
Proof.
  unfold row_class, is_broken.
  destruct (is_str (get r "status") "skipped"); [discriminate|].
  destruct (truthy (get r "httpStatus") && num_ge (get r "httpStatus") 400).
  - intros _. apply orb_true_r.
  - destruct (truthy (get r "timeMs") && num_gt (get r "timeMs") 2000); discriminate.
Qed.

Lemma row_slow_slow (r : obj) :
  String.eqb (row_class r) "slow" = true -> is_slow r = true.
Proof.
  unfold row_class, is_slow.
  destruct (is_str (get r "status") "skipped"); [discriminate|].
  destruct (truthy (get r "httpStatus") && num_ge (get r "httpStatus") 400);
    [discriminate|].
  destruct (get r "timeMs") as [| |b|n|s|h]; cbn;
    rewrite ?andb_false_r; try discriminate.
  destruct (negb (n =? 0)%Z); cbn; [|discriminate].
  destruct (2000 <? n)%Z; [reflexivity | discriminate].
Qed.

(** X14.  The table never shows more rows of class [bad] than the summary
    counts broken resources, nor more rows of class [slow] than it counts
    slow ones: a [bad] row is a broken result, a [slow] row a slow one. *)
Theorem X14_row_classes_within_counts
    (resolveUrl : string -> string -> option string) (base : string)
    (raws : list raw_resource) (cs : list obj) :
  let out := respond resolveUrl base raws cs in
  (length (rows_of_class "bad" (resources_of out)) <= brokenCount (summary_of out))%nat
  /\ (length (rows_of_class "slow" (resources_of out)) <= slowCount (summary_of out))%nat.
Proof.
  intros out. subst out. unfold respond, rows_of_class.
  cbn [resources_of summary_of brokenCount slowCount].
  split; apply filter_length_le; [exact row_bad_broken | exact row_slow_slow].
Qed.

Lemma get_note_note (r : obj) (st nt : string) :
  get (assign r (note_obj st nt)) "note" = VStr nt.
Proof. rewrite get_assign. reflexivity. Qed.

(** X15.  The table row of a result classified [unresolved], [skipped] or
    [not_checked]: the HTTP cell shows the classification, the note cell
    shows the note of the result, never the word duplicate and never
    nothing, and the row has the class [skipped] for a skipped result and
    no class otherwise. *)
Theorem X15_row_of_unprobed
    (resolveUrl : string -> string -> option string) (base : string)
    (raws : list raw_resource) (out : response) (j : nat) (f : obj) :
  analysis resolveUrl base raws out ->
  resources_of out !! j = Some f ->
  get f "status" ∈ [VStr "unresolved"; VStr "skipped"; VStr "not_checked"] ->
  http_cell f = get f "status"
  /\ note_cell f = get f "note"
  /\ note_cell f <> VStr "duplicate" /\ note_cell f <> VStr ""
  /\ row_class f = (if is_str (get f "status") "skipped" then "skipped" else "").
Proof.
  intros (cs & Hrun & ->) Hf Hst. unfold respond in Hf. cbn [resources_of] in Hf.
  destruct (lookup_lt_is_Some_2 raws j) as [r Hr].
  { apply lookup_lt_Some in Hf. unfold finalResources in Hf.
    rewrite length_fmap, resources_length in Hf. exact Hf. }
  rewrite (final_lookup _ _ _ _ _ _ Hr) in Hf. injection Hf as <-.
  destruct (finalize_cases resolveUrl base raws cs Hrun j r Hr)
    as [[_ Hf]|[(_ & _ & Hf)|[(_ & _ & _ & Hf)|(_ & _ & item & data & _ & _ & Hp & Hf)]]];
    rewrite Hf in *.
  1-3: unfold http_cell, note_cell, row_class, js_or;
       rewrite get_note_status, get_note_note, !get_assign_note by discriminate;
       repeat split; try reflexivity; discriminate.
  exfalso. destruct (pushed_get_status item data _ Hp) as [Hs _]. rewrite Hs in Hst.
  destruct (probe_data_status _ _ Hp) as [[Hok _]|Her];
    [rewrite Hok in Hst | rewrite Her in Hst];
    repeat (apply elem_of_cons in Hst as [Hst|Hst]; [discriminate|]);
    inversion Hst.
Qed.

Lemma X15_witness :
  let out := steady_out 50 mixed in
  let f := resources_of out !!! 2%nat in
  http_cell f = get f "status"
  /\ note_cell f = get f "note"
  /\ note_cell f <> VStr "duplicate" /\ note_cell f <> VStr ""
  /\ row_class f = (if is_str (get f "status") "skipped" then "skipped" else "").
Proof.
  intros out f.
  apply (X15_row_of_unprobed sample_resolveUrl sample_base mixed out 2).
  - apply steady_out_analysis.
  - apply list_lookup_lookup_total_lt. vm_compute. lia.
  - vm_compute. right. left.
Defined.

(** ** [escapeHtml] and [escapeAttr] *)

Lemma escapeHtml_replace (s : string) : escapeHtml s = replace_chars escape_char s.
Proof. destruct s; reflexivity. Qed.

Lemma string_forall_append (p : ascii -> bool) (a b : string) :
  string_forall p (String.append a b) = string_forall p a && string_forall p b.
Proof.
  induction a as [|c a IH]; [reflexivity|].
  rewrite append_cons. cbn [string_forall]. rewrite IH. apply andb_assoc.
Qed.

Lemma escape_char_no_markup (c : ascii) :
  string_forall (fun x => negb (is_markup_char x)) (escape_char c) = true.
Proof. destruct c as [[] [] [] [] [] [] [] []]; reflexivity. Qed.

Lemma replace_no_markup (s : string) :
  string_forall (fun x => negb (is_markup_char x)) (replace_chars escape_char s) = true.
Proof.
  induction s as [|c s IH]; [reflexivity|].
  cbn [replace_chars]. rewrite string_forall_append, escape_char_no_markup, IH.
  reflexivity.
Qed.

(** X16.  The text [escapeHtml] returns contains no [<], no [>], no double
    quote and no apostrophe. *)
Theorem X16_escapeHtml_no_markup (s : string) :
  string_forall (fun c => negb (is_markup_char c)) (escapeHtml s) = true.
Proof. rewrite escapeHtml_replace. apply replace_no_markup. Qed.

Lemma replace_quote_id (t : string) :
  string_forall (fun x => negb (is_markup_char x)) t = true ->
  replace_chars
    (fun c => if Ascii.eqb c dquote then "&quot;" else String c EmptyString) t = t.
Proof.
  induction t as [|c t IH]; [reflexivity|].
  cbn [string_forall replace_chars]. intros H.
  apply andb_true_iff in H as [Hc Ht]. rewrite (IH Ht).
  unfold is_markup_char in Hc.
  destruct (Ascii.eqb c dquote).
  - rewrite orb_true_r in Hc. discriminate.
  - reflexivity.
Qed.

(** X17.  [escapeAttr] returns what [escapeHtml] returns: its own
    replacement of double quotes finds none left. *)
Theorem X17_escapeAttr_is_escapeHtml (s : string) : escapeAttr s = escapeHtml s.
Proof.
  unfold escapeAttr. apply replace_quote_id.
  rewrite escapeHtml_replace. apply replace_no_markup.
Qed.

(** The image of a character: itself when [escapeHtml] keeps it, else one
    of the five entities. *)
Lemma escape_char_cases (c : ascii) :
  (is_html_special c = false /\ escape_char c = String c EmptyString)
  \/ (c = "&"%char /\ escape_char c = "&amp;")
  \/ (c = "<"%char /\ escape_char c = "&lt;")
  \/ (c = ">"%char /\ escape_char c = "&gt;")
  \/ (c = dquote /\ escape_char c = "&quot;")
  \/ (c = "'"%char /\ escape_char c = "&#39;").
Proof.
  destruct c as [[] [] [] [] [] [] [] []];
    first [ left; split; reflexivity
          | right; left; split; reflexivity
          | right; right; left; split; reflexivity
          | right; right; right; left; split; reflexivity
          | right; right; right; right; left; split; reflexivity
          | right; right; right; right; right; split; reflexivity ].
Qed.

Lemma escape_char_inj (c d : ascii) (x y : string) :
  String.append (escape_char c) x = String.append (escape_char d) y ->
  c = d /\ x = y.
Proof.
  intros H.
  destruct (escape_char_cases c) as [[Hc Ec]|[[-> Ec]|[[-> Ec]|[[-> Ec]|[[-> Ec]|[-> Ec]]]]]];
  destruct (escape_char_cases d) as [[Hd Ed]|[[-> Ed]|[[-> Ed]|[[-> Ed]|[[-> Ed]|[-> Ed]]]]]];
    rewrite Ec, ?Ed in H; rewrite ?append_cons, ?append_nil in H;
    try discriminate;
    try (injection H as -> ->; split; reflexivity);
    try (injection H as -> _; discriminate);
    try (injection H as <- _; discriminate);
    try (injection H as ->; split; reflexivity).
Qed.

(** X18.  [escapeHtml] loses nothing: two texts with the same escaped form
    are the same text. *)
Theorem X18_escapeHtml_injective (a b : string) :
  escapeHtml a = escapeHtml b -> a = b.
Proof.
  rewrite !escapeHtml_replace. revert b.
  induction a as [|c a IH]; intros [|d b] H.
  - reflexivity.
  - exfalso. cbn [replace_chars] in H.
    destruct (escape_char_cases d) as [[_ E]|[[_ E]|[[_ E]|[[_ E]|[[_ E]|[_ E]]]]]];
      rewrite E, append_cons in H; discriminate.
  - exfalso. cbn [replace_chars] in H.
    destruct (escape_char_cases c) as [[_ E]|[[_ E]|[[_ E]|[[_ E]|[[_ E]|[_ E]]]]]];
      rewrite E, append_cons in H; discriminate.
  - cbn [replace_chars] in H. apply escape_char_inj in H as [-> H].
    rewrite (IH b H). reflexivity.
Qed.

Lemma X18_witness : escapeHtml "a<b" = "a&lt;b" /\ "a<b" = "a<b".
Proof.
  split; [reflexivity|].
  apply (X18_escapeHtml_injective "a<b" "a<b"). reflexivity.
Defined.

Lemma replace_length (s : string) :
  (String.length s <= String.length (replace_chars escape_char s))%nat.
Proof.
  induction s as [|c s IH]; [reflexivity|].
  cbn [replace_chars].
  destruct (escape_char_cases c) as [[_ E]|[[_ E]|[[_ E]|[[_ E]|[[_ E]|[_ E]]]]]];
    rewrite E, ?append_cons, append_nil; cbn [String.length]; lia.
Qed.

(** X19.  [escapeHtml] returns its argument unchanged exactly when the
    argument contains none of the five characters it replaces. *)
Theorem X19_escapeHtml_fixed_points (s : string) :
  escapeHtml s = s <-> string_forall (fun c => negb (is_html_special c)) s = true.
Proof.
  rewrite escapeHtml_replace. induction s as [|c s IH]; [split; reflexivity|].
  cbn [replace_chars string_forall]. rewrite andb_true_iff, <- IH.
  pose proof (replace_length s) as Hlen.
  destruct (escape_char_cases c) as [[Hc E]|[[-> E]|[[-> E]|[[-> E]|[[-> E]|[-> E]]]]]];
    rewrite E, ?append_cons, append_nil.
  - rewrite Hc. split.
    + intros H. injection H as H. split; [reflexivity | exact H].
    + intros [_ H]. rewrite H. reflexivity.
  - split; [|intros [H _]; discriminate].
    intros H. apply (f_equal String.length) in H. cbn [String.length] in H. lia.
  - split; [|intros [H _]; discriminate].
    intros H. apply (f_equal String.length) in H. cbn [String.length] in H. lia.
  - split; [|intros [H _]; discriminate].
    intros H. apply (f_equal String.length) in H. cbn [String.length] in H. lia.
  - split; [|intros [H _]; discriminate].
    intros H. discriminate.
  - split; [|intros [H _]; discriminate].
    intros H. apply (f_equal String.length) in H. cbn [String.length] in H. lia.
Qed.

(** ** SMS parts *)

(** X20.  A text is classified [gsm] exactly when no code unit of it is
    above 127; so a concatenation is [gsm] exactly when both parts are. *)
Theorem X20_smsGsmEncoding_all_below_128 (a b : code_units) :
  (smsGsmEncoding a = gsm <-> Forall (fun c => (c <= 127)%N) a)
  /\ (smsGsmEncoding (a ++ b) = gsm
      <-> smsGsmEncoding a = gsm /\ smsGsmEncoding b = gsm).
Proof.
  assert (forall t, smsGsmEncoding t = gsm <-> Forall (fun c => (c <= 127)%N) t) as Hall.
  { induction t as [|c t IH]; [split; [constructor | reflexivity]|].
    cbn [smsGsmEncoding]. rewrite Forall_cons, <- IH.
    destruct (N.ltb_spec 127 c) as [Hc|Hc].
    - split; [discriminate | intros [H _]; lia].
    - split; [intros H; split; [exact Hc | exact H] | intros [_ H]; exact H]. }
  split; [apply Hall|].
  rewrite !Hall. apply Forall_app.
Qed.

(** X21.  What [smsParts] returns: at least one part; the parts hold the
    text and [charsLeft] more characters, which is between zero and one
    part; no smaller number of parts of that size holds a non-empty text;
    and the text is one part exactly when its length is at most 160 ([gsm])
    or 70 ([unicode]). *)
Theorem X21_smsParts_capacity (text : code_units) :
  let p := smsParts text in
  let len := Z.of_nat (length text) in
  encoding p = smsGsmEncoding text
  /\ 1 <= parts p
  /\ parts p * perPart p = len + charsLeft p
  /\ 0 <= charsLeft p <= perPart p
  /\ (0 < len -> (parts p - 1) * perPart p < len)
  /\ (parts p = 1 <-> len <= single_limit (encoding p)).
Proof.
  intros p len. subst p. unfold smsParts. fold len.
  assert (0 <= len) as Hlen by (subst len; lia).
  destruct (smsGsmEncoding text).
  - destruct (Z.leb_spec len 160) as [Hl|Hl];
      cbn [parts perPart encoding charsLeft single_limit]; unfold ceil_div.
    + repeat split; lia.
    + repeat split; try (Z.div_mod_to_equations; lia).
  - destruct (Z.leb_spec len 70) as [Hl|Hl];
      cbn [parts perPart encoding charsLeft single_limit]; unfold ceil_div.
    + repeat split; lia.
    + repeat split; try (Z.div_mod_to_equations; lia).
Qed.

(** X22.  Adding text to a message never lowers the number of parts. *)
Theorem X22_smsParts_monotone (a b : code_units) :
  parts (smsParts a) <= parts (smsParts (a ++ b)).
Proof.
  assert (smsGsmEncoding a = unicode -> smsGsmEncoding (a ++ b) = unicode) as Huni.
  { induction a as [|c a IH]; [discriminate|].
    cbn [app smsGsmEncoding]. destruct (127 <? c)%N; [reflexivity | exact IH]. }
  unfold smsParts. rewrite length_app, Nat2Z.inj_add.
  pose proof (Zle_0_nat (length a)) as Ha. pose proof (Zle_0_nat (length b)) as Hb.
  set (la := Z.of_nat (length a)) in *. set (lb := Z.of_nat (length b)) in *.
  destruct (smsGsmEncoding a) eqn:Ea.
  - destruct (smsGsmEncoding (a ++ b));
      destruct (Z.leb_spec la 160); destruct (Z.leb_spec (la + lb) 160);
      destruct (Z.leb_spec (la + lb) 70);
      cbn [parts]; unfold ceil_div; try lia; Z.div_mod_to_equations; lia.
  - rewrite (Huni eq_refl).
    destruct (Z.leb_spec la 70); destruct (Z.leb_spec (la + lb) 70);
      cbn [parts]; unfold ceil_div; try lia; Z.div_mod_to_equations; lia.
Qed.

(** ** The recommendations *)

Lemma size_list_to_set_le (l : list value) :
  (size (list_to_set l : gset value) <= length l)%nat.
Proof.
  induction l as [|x l IH]; [rewrite list_to_set_nil, size_empty; reflexivity|].
  rewrite list_to_set_cons. cbn [length].
  pose proof (size_union_alt ({[x]} : gset value) (list_to_set l)) as H.
  assert (list_to_set l ∖ {[x]} ⊆ (list_to_set l : gset value)) as Hsub
    by (intros y Hy; apply elem_of_difference in Hy as [Hy _]; exact Hy).
  apply subseteq_size in Hsub.
  rewrite size_singleton in H. lia.
Qed.

Lemma size_list_to_set_NoDup (l : list value) :
  size (list_to_set l : gset value) = length l <-> NoDup l.
Proof.
  split; [|apply size_list_to_set].
  induction l as [|x l IH]; [constructor|].
  rewrite list_to_set_cons. cbn [length]. intros H.
  pose proof (size_list_to_set_le l) as Hle.
  destruct (decide (x ∈ l)) as [Hin|Hin].
  - exfalso.
    assert ({[x]} ∪ list_to_set l = (list_to_set l : gset value)) as E
      by (apply subseteq_union_1_L, singleton_subseteq_l, elem_of_list_to_set; exact Hin).
    rewrite E in H. lia.
  - constructor; [exact Hin|]. apply IH.
    rewrite size_union in H
      by (apply disjoint_singleton_l; rewrite elem_of_list_to_set; exact Hin).
    rewrite size_singleton in H. lia.
Qed.

Lemma filter_length_pos {A} (p : A -> bool) (l : list A) :
  length (List.filter p l) <> 0%nat <-> exists x, x ∈ l /\ p x = true.
Proof.
  induction l as [|x l IH].
  - split; [intros H; contradiction H; reflexivity|].
    intros (x & Hx & _). inversion Hx.
  - cbn [List.filter]. destruct (p x) eqn:Hp.
    + split; [|discriminate]. intros _. exists x. split; [left | exact Hp].
    + rewrite IH. split.
      * intros (y & Hy & Hpy). exists y. split; [right; exact Hy | exact Hpy].
      * intros (y & Hy & Hpy). apply elem_of_cons in Hy as [->|Hy]; [congruence|].
        exists y. split; assumption.
Qed.

Lemma recommendations_elem (final : list obj) (s : string) :
  s ∈ recommendations final <->
  (s = advice_broken /\ length (List.filter is_broken final) <> 0%nat)
  \/ (s = advice_duplicates /\ duplicateCount final <> 0%nat)
  \/ (s = advice_slow /\ length (List.filter is_slow final) <> 0%nat)
  \/ (s = advice_unnecessary /\ unnecessaryCount final <> 0%nat).
Proof.
  unfold recommendations. rewrite !elem_of_app.
  destruct (Nat.eqb_spec (length (List.filter is_broken final)) 0) as [-> |H1];
  destruct (Nat.eqb_spec (duplicateCount final) 0) as [-> |H2];
  destruct (Nat.eqb_spec (length (List.filter is_slow final)) 0) as [-> |H3];
  destruct (Nat.eqb_spec (unnecessaryCount final) 0) as [-> |H4];
    rewrite ?elem_of_nil, ?list_elem_of_singleton; intuition congruence.
Qed.

(** X23.  The recommendations of a run, read from the page: the advice
    about duplicates is given exactly when two references resolve to the
    same URL, the advice about placeholders exactly when some reference is
    skippable, the advice about broken and slow resources exactly when the
    summary counts one; and nothing else is ever recommended. *)
Theorem X23_recommendations_from_input
    (resolveUrl : string -> string -> option string) (base : string)
    (raws : list raw_resource) (out : response) :
  analysis resolveUrl base raws out ->
  let recs := recommendations (resources_of out) in
  let urls := List.filter truthy
                ((fun r => of_resolved (resolveUrl base (raw r))) <$> raws) in
  (advice_duplicates ∈ recs <-> ~ NoDup urls)
  /\ (advice_unnecessary ∈ recs
      <-> exists r, r ∈ raws /\ isSkippableHref (raw r) = true)
  /\ (advice_broken ∈ recs <-> brokenCount (summary_of out) <> 0%nat)
  /\ (advice_slow ∈ recs <-> slowCount (summary_of out) <> 0%nat)
  /\ (forall s, s ∈ recs ->
        s ∈ [advice_broken; advice_duplicates; advice_slow; advice_unnecessary]).
Proof.
  intros (cs & Hrun & ->) recs urls. subst recs. unfold respond.
  cbn [resources_of summary_of brokenCount slowCount].
  set (final := finalResources (resources resolveUrl base raws) cs).
  assert (duplicateCount final <> 0%nat <-> ~ NoDup urls) as Hdup.
  { pose proof (duplicates_from_count ∅ final) as H. subst final.
    rewrite (final_resolved_values _ _ _ _ Hrun) in H.
    rewrite dom_empty_L, union_empty_l_L, size_empty in H. fold urls in H.
    rewrite <- size_list_to_set_NoDup.
    pose proof (size_list_to_set_le urls).
    unfold duplicateCount, duplicates. lia. }
  assert (unnecessaryCount final
          = length (List.filter (fun r => isSkippableHref (raw r)) raws)) as Hun.
  { unfold unnecessaryCount. apply filter_length_Forall2.
    apply Forall2_same_length_lookup_2.
    - unfold final, finalResources. rewrite length_fmap. apply resources_length.
    - intros j f r Hf Hr. exact (final_unnecessary _ _ _ _ _ _ _ Hrun Hr Hf). }
  repeat split.
  - intros H. apply recommendations_elem in H
      as [[H _]|[[_ H]|[[H _]|[H _]]]]; try discriminate. apply Hdup. exact H.
  - intros H. apply recommendations_elem. right. left.
    split; [reflexivity | apply Hdup; exact H].
  - intros H. apply recommendations_elem in H
      as [[H _]|[[H _]|[[H _]|[_ H]]]]; try discriminate.
    rewrite Hun in H. apply filter_length_pos in H. exact H.
  - intros H. apply recommendations_elem. right. right. right.
    split; [reflexivity|]. rewrite Hun. apply filter_length_pos. exact H.
  - intros H. apply recommendations_elem in H
      as [[_ H]|[[H _]|[[H _]|[H _]]]]; try discriminate. exact H.
  - intros H. apply recommendations_elem. left. split; [reflexivity | exact H].
  - intros H. apply recommendations_elem in H
      as [[H _]|[[H _]|[[_ H]|[H _]]]]; try discriminate. exact H.
  - intros H. apply recommendations_elem. right. right. left.
    split; [reflexivity | exact H].
  - intros s H. apply recommendations_elem in H
      as [[-> _]|[[-> _]|[[-> _]|[-> _]]]]; repeat constructor.
Qed.

Lemma X23_witness :
  let out := steady_out 50 mixed in
  let recs := recommendations (resources_of out) in
  let urls := List.filter truthy
                ((fun r => of_resolved (sample_resolveUrl sample_base (raw r))) <$> mixed) in
  (advice_duplicates ∈ recs <-> ~ NoDup urls)
  /\ (advice_unnecessary ∈ recs
      <-> exists r, r ∈ mixed /\ isSkippableHref (raw r) = true)
  /\ (advice_broken ∈ recs <-> brokenCount (summary_of out) <> 0%nat)
  /\ (advice_slow ∈ recs <-> slowCount (summary_of out) <> 0%nat)
  /\ (forall s, s ∈ recs ->
        s ∈ [advice_broken; advice_duplicates; advice_slow; advice_unnecessary]).
Proof.
  apply (X23_recommendations_from_input sample_resolveUrl sample_base mixed
           (steady_out 50 mixed)).
  apply steady_out_analysis.
Defined.

(** ** The worker pool: no idle worker, items started in order *)

Lemma awaited_all (ws : list worker) :
  Finished ∉ ws -> length (awaited ws) = length ws.
Proof.
  induction ws as [|w ws IH]; [reflexivity|].
  intros Hnot. apply not_elem_of_cons in Hnot as [Hw Hws].
  destruct w as [item|]; [|congruence].
  cbn. rewrite <- (IH Hws). reflexivity.
Qed.

Lemma queue_nsteps (items : list obj) (n : nat) (p : pool) :
  nsteps step n (pool_init items) p -> queue p = drop (CONCURRENCY + n) items.
Proof.
  revert p. induction n as [|n IH]; intros p Hn.
  - inversion Hn; subst. unfold pool_init. rewrite spawn_spec. cbn [queue snd].
    rewrite Nat.add_0_r. reflexivity.
  - apply nsteps_inv_r in Hn as (p0 & Hn & Hs). apply IH in Hn.
    destruct Hs as [i item data q rs ws Hi Hd]. cbn [queue] in *.
    replace (CONCURRENCY + S n)%nat with ((CONCURRENCY + n) + 1)%nat by lia.
    rewrite <- drop_drop, <- Hn. destruct q; reflexivity.
Qed.

(** X24.  In the pool reached after [n] probes have settled, the queue is
    what is left of the items after the first [CONCURRENCY + n]: items
    are started in their order; and [min CONCURRENCY (length items - n)]
    probes are in flight: no worker has stopped while an item was still
    to be started. *)
Theorem X24_pool_keeps_workers_busy (items : list obj) (n : nat) (p : pool) :
  nsteps step n (pool_init items) p ->
  queue p = drop (CONCURRENCY + n) items
  /\ in_flight p = Nat.min CONCURRENCY (length items - n).
Proof.
  intros Hn. split; [exact (queue_nsteps _ _ _ Hn)|].
  pose proof (pool_inv_nsteps _ _ _ Hn) as [Hsz _ Hdr Hfuel].
  rewrite in_flight_awaited. unfold fuel in Hfuel.
  pose proof (awaited_length_le (workers p)) as Hle.
  destruct (decide (Finished ∈ workers p)) as [Hin|Hnot].
  - rewrite (Hdr Hin) in Hfuel. cbn [length] in Hfuel. lia.
  - apply awaited_all in Hnot. lia.
Qed.

Lemma X24_witness :
  queue (pool_init (replicate 10 (∅ : obj))) = drop (CONCURRENCY + 0) (replicate 10 ∅)
  /\ in_flight (pool_init (replicate 10 (∅ : obj)))
     = Nat.min CONCURRENCY (length (replicate 10 (∅ : obj)) - 0).
Proof.
  apply (X24_pool_keeps_workers_busy (replicate 10 ∅) 0). constructor.
Defined.
